(** * cloud-derby, admin/ml-image-updates/js/app.js

    A shallow embedding of the image scanning job: the label matcher
    [findObject], the payload normaliser [createVisionResponse], the inference
    client [recognizeObjectAPIAsync], and the two drivers [processOneFile] and
    [processAllFiles].

    Conventions of the embedding.
    - A JavaScript string is a [string]: a sequence of 8-bit characters, each
      standing for one code unit.
    - A JavaScript value that can come out of [JSON.parse], or [undefined], is a
      [value]. A number is kept as the decimal literal that denotes it; the
      program only copies numbers, it never computes with them.
    - A statement that can throw returns an [outcome]; a promise is described by
      how it settles ([settled]) together with the effects its computation has
      ([async]).
    - What the language runtime and the outside world provide (case mapping,
      [JSON.parse], the network, the bucket listing, the process environment)
      is an interface: [Host] and [World]. *)

From Stdlib Require Import String Ascii List Finite NArith ZArith Nnat Lia Bool Permutation.
From Stdlib Require Import Decimal DecimalString DecimalNat DecimalN DecimalZ.
Import ListNotations.

Set Warnings "-register-all,-notation-for-abbreviation".

Open Scope list_scope.
Open Scope string_scope.
Open Scope Z_scope.

(** ** Strings *)

(** [s.indexOf(searchString)]: the least position at which [searchString]
    occurs in [s], or [-1]. *)
Fixpoint indexOf_from (searchString s : string) (position : Z) : Z :=
  if prefix searchString s then position
  else match s with
       | EmptyString => -1
       | String _ rest => indexOf_from searchString rest (position + 1)
       end.

Definition indexOf (s searchString : string) : Z :=
  indexOf_from searchString s 0.

(** [s.startsWith(searchString)]. *)
Definition startsWith (s searchString : string) : bool :=
  prefix searchString s.

(** Truthiness of a string: only the empty string is falsy. *)
Definition truthy (s : string) : bool :=
  match s with
  | EmptyString => false
  | String _ _ => true
  end.

(** [s.split(" ")], written with the piece under construction as an
    accumulator. *)
Fixpoint split_from (separator : ascii) (piece s : string) : list string :=
  match s with
  | EmptyString => [piece]
  | String c rest =>
      if Ascii.eqb c separator
      then piece :: split_from separator EmptyString rest
      else split_from separator (piece ++ String c EmptyString) rest
  end.

Definition split (s : string) (separator : ascii) : list string :=
  split_from separator EmptyString s.

(** Decimal text of an array index and of an integer. *)
Definition index_text (n : N) : string :=
  NilZero.string_of_uint (N.to_uint n).

Definition index_key (i : nat) : string :=
  index_text (N.of_nat i).

(** The index a property name denotes, when the name is the canonical decimal
    text of a natural number. *)
Definition canonical_index (key : string) : option N :=
  match NilZero.uint_of_string key with
  | Some u =>
      let n := N.of_uint u in
      if String.eqb (index_text n) key then Some n else None
  | None => None
  end.

Definition integer_text (z : Z) : string :=
  NilZero.string_of_int (Z.to_int z).

(** ** Values *)

Inductive value : Type :=
| VUndefined
| VNull
| VBool (b : bool)
| VNum (literal : decimal)
| VStr (s : string)
| VArr (elements : list value)
| VObj (properties : list (string * value)).

(** Exceptions the program can meet. *)
Inductive exception : Type :=
| SyntaxError
| TypeError.

Inductive outcome (A : Type) : Type :=
| Returns (a : A)
| Throws (e : exception).
Arguments Returns {A} a.
Arguments Throws {A} e.

Definition bind {A B : Type} (m : outcome A) (k : A -> outcome B) : outcome B :=
  match m with
  | Returns a => k a
  | Throws e => Throws e
  end.

Notation "'let*' x ':=' m 'in' k" := (bind m (fun x => k))
  (at level 10, x name, m at level 100, k at level 200).

(** Own property [name] of a property list, in the order the object holds its
    properties. *)
Fixpoint own_property (properties : list (string * value)) (name : string)
  : option value :=
  match properties with
  | [] => None
  | (k, v) :: rest => if String.eqb k name then Some v else own_property rest name
  end.

(** ** The two entities *)

Module BoundingBox.
(** Modelled from the spec: the class of cloud/controller/js/bounding-box,
    which app.js imports. A box keeps the six constructor arguments as
    given: a label, the four geometry fields and the score. *)
Record t : Type := new
  { label : string; x : value; y : value; w : value; h : value; score : value }.
End BoundingBox.

Module VisionResponse.
(** Modelled from the spec: the class of cloud/controller/js/vision-response,
    which app.js imports. A response is an ordered sequence of boxes, empty
    when constructed; [addBox] appends, so insertion order is kept. *)
Record t : Type := make { bBoxes : list BoundingBox.t }.

Definition new : t := make [].

Definition addBox (response : t) (bBox : BoundingBox.t) : t :=
  make (bBoxes response ++ [bBox])%list.
End VisionResponse.

(** ** What the language runtime provides *)

Class Host : Type :=
  { (** [String.prototype.toLowerCase] *)
    toLowerCase : string -> string;
    (** [String.prototype.toLocaleLowerCase], which follows the host locale *)
    toLocaleLowerCase : string -> string;
    (** [JSON.parse]; [None] when it throws a SyntaxError *)
    JSON_parse : string -> option value;
    (** [i < v] for an index [i] and a value [v] that is not an array or string
        length; [None] when the conversion of [v] to a number throws *)
    lessThan : nat -> value -> option bool;
    (** [encodeURIComponent], which is total on 8-bit strings *)
    encodeURIComponent : string -> string }.

(** ** LabelMatcher: findObject *)

Section Matcher.
Context {host : Host}.

(** The test of line 91. *)
Definition label_matches (objectType : string) (bBox : BoundingBox.t) : bool :=
  0 <=? indexOf (toLocaleLowerCase (BoundingBox.label bBox))
                (toLowerCase objectType).

(** [for (let i = n; i--;) body]: the counter is tested, then decremented,
    and the body sees the decremented value. Reading [bBoxes[i]] past the end
    gives [undefined], whose [label] cannot be read. *)
Fixpoint findObject_loop (objectType : string) (bBoxes : list BoundingBox.t)
  (i : nat) : outcome bool :=
  match i with
  | O => Returns false
  | S i' =>
      match nth_error bBoxes i' with
      | None => Throws TypeError
      | Some bBox =>
          if label_matches objectType bBox then Returns true
          else findObject_loop objectType bBoxes i'
      end
  end.

Definition findObject (objectType : string) (visionResponse : VisionResponse.t)
  : outcome bool :=
  findObject_loop objectType (VisionResponse.bBoxes visionResponse)
    (length (VisionResponse.bBoxes visionResponse)).
End Matcher.

(** ** ResponseParser: createVisionResponse *)

(** Number of own entries of a value: elements, characters or properties. *)
Definition size (v : value) : nat :=
  match v with
  | VArr elements => length elements
  | VStr s => String.length s
  | VObj properties => length properties
  | _ => O
  end.

(** The keys [for (key in v)] visits, in order. Nothing is visited for
    [null], [undefined], a boolean or a number. *)
Definition for_in_keys (v : value) : list string :=
  match v with
  | VObj properties => map fst properties
  | VArr elements => map index_key (seq 0 (length elements))
  | VStr s => map index_key (seq 0 (String.length s))
  | _ => []
  end.

(** [v[key]] for the names the program reads: the keys of [for_in_keys], the
    indices [0, 1, ...] and the field names [x], [y], [w], [h], [score]. None
    of these is inherited from a prototype, so a name that is not an own
    property reads as [undefined]; reading from [null] or [undefined] throws. *)
Definition get (v : value) (key : string) : outcome value :=
  match v with
  | VUndefined | VNull => Throws TypeError
  | VBool _ | VNum _ => Returns VUndefined
  | VStr s =>
      match canonical_index key with
      | Some n =>
          if (n <? N.of_nat (String.length s))%N
          then match String.get (N.to_nat n) s with
               | Some c => Returns (VStr (String c EmptyString))
               | None => Returns VUndefined
               end
          else Returns VUndefined
      | None => Returns VUndefined
      end
  | VArr elements =>
      match canonical_index key with
      | Some n =>
          if (n <? N.of_nat (length elements))%N
          then match nth_error elements (N.to_nat n) with
               | Some e => Returns e
               | None => Returns VUndefined
               end
          else Returns VUndefined
      | None => Returns VUndefined
      end
  | VObj properties =>
      match own_property properties key with
      | Some e => Returns e
      | None => Returns VUndefined
      end
  end.

Section Parser.
Context {host : Host}.

(** The loop condition [i < v.length]. An array and a string have a length
    that is an index count; a boolean and a number have none, and
    [i < undefined] is false; a plain object has one only as an own property,
    whose comparison with [i] is the host's. *)
Definition below_length (i : nat) (v : value) : outcome bool :=
  match v with
  | VUndefined | VNull => Throws TypeError
  | VBool _ | VNum _ => Returns false
  | VStr s => Returns (i <? String.length s)%nat
  | VArr elements => Returns (i <? length elements)%nat
  | VObj properties =>
      match own_property properties "length" with
      | None => Returns false
      | Some bound =>
          match lessThan i bound with
          | Some b => Returns b
          | None => Throws TypeError
          end
      end
  end.

(** Line 135: the box built from [objResponse[key][i]]. *)
Definition box_at (objResponse : value) (key : string) (i : nat)
  : outcome BoundingBox.t :=
  let record := let* found := get objResponse key in get found (index_key i) in
  let* x := (let* r := record in get r "x") in
  let* y := (let* r := record in get r "y") in
  let* w := (let* r := record in get r "w") in
  let* h := (let* r := record in get r "h") in
  let* score := (let* r := record in get r "score") in
  Returns (BoundingBox.new key x y w h score).

(** The inner loop of lines 133-137, from counter value [i]. Each turn
    spends one unit of [fuel]; [None] means the fuel ran out. *)
Fixpoint records_loop (fuel : nat) (objResponse : value) (key : string)
  (i : nat) (response : VisionResponse.t) : option (outcome VisionResponse.t) :=
  match fuel with
  | O => None
  | S fuel' =>
      match (let* found := get objResponse key in below_length i found) with
      | Throws e => Some (Throws e)
      | Returns false => Some (Returns response)
      | Returns true =>
          match box_at objResponse key i with
          | Throws e => Some (Throws e)
          | Returns bBox =>
              records_loop fuel' objResponse key (S i)
                (VisionResponse.addBox response bBox)
          end
      end
  end.

(** Fuel that always suffices: one turn per entry of [objResponse[key]] and
    one for the final test (see [records_loop_fuel] below). *)
Definition records_fuel (objResponse : value) (key : string) : nat :=
  match get objResponse key with
  | Returns found => S (size found)
  | Throws _ => 1
  end.

Definition add_records (objResponse : value) (key : string)
  (response : VisionResponse.t) : outcome VisionResponse.t :=
  match records_loop (records_fuel objResponse key) objResponse key 0 response with
  | Some result => result
  | None => Throws TypeError
  end.

(** The outer loop of lines 132-138 over the keys still to visit. *)
Fixpoint keys_loop (objResponse : value) (keys : list string)
  (response : VisionResponse.t) : outcome VisionResponse.t :=
  match keys with
  | [] => Returns response
  | key :: rest =>
      let* response' := add_records objResponse key response in
      keys_loop objResponse rest response'
  end.

Definition createVisionResponse (jsonAPIResponse : string)
  : outcome VisionResponse.t :=
  let response := VisionResponse.new in
  match JSON_parse jsonAPIResponse with
  | None => Throws SyntaxError
  | Some objResponse => keys_loop objResponse (for_in_keys objResponse) response
  end.
End Parser.

(** ** Promises, effects and the outside world *)

Record auth : Type := { user : string; pass : string }.

(** What the callback of [request] receives: an error, or a response with its
    status code and body. *)
Inductive reply : Type :=
| Failed (err : string)
| Replied (statusCode : Z) (body : string).

(** A file object of the bucket listing. *)
Record File : Type := { name : string }.

(** The value a promise is rejected with: a message string (lines 153, 156,
    174), the error object of the transport (line 170), or an exception thrown
    inside a handler. *)
Inductive reason : Type :=
| Message (text : string)
| Cause (err : string)
| Raised (e : exception).

Inductive settled (A : Type) : Type :=
| Resolved (a : A)
| Rejected (r : reason).
Arguments Resolved {A} a.
Arguments Rejected {A} r.

(** Observable actions: the two calls that leave the process, and one
    constructor per [console.log] site carrying the values it prints. The
    duration printed at line 172 is wall-clock time and is left out. *)
Inductive event : Type :=
| storage_getFiles (project bucketName : string)
| http_request (uri : string) (credentials : auth)
| log_processAllFiles_index (i : nat)
| log_processAllFiles_total (i : nat)
| log_processOneFile (fileName : string)
| log_vision_response (visionResponse : VisionResponse.t)
| log_searching (label : string) (found : bool)
| log_recognizeObjects (gcsPath : string)
| log_recognize_error (error : reason)
| log_api_error (err : string)
| log_api_timing (apiUrl : string).

(** A call that returns a promise: the events of the part that runs before the
    call returns, the events of the part that runs after the caller's current
    turn has ended, and the way the promise settles. *)
Record async (A : Type) : Type := Async
  { now : list event; later : list event; settles : settled A }.
Arguments Async {A} now later settles.
Arguments now {A} a.
Arguments later {A} a.
Arguments settles {A} a.

(** [promise.then(onFulfilled)] with a handler that runs no effects. *)
Definition then_ {A B : Type} (promise : async A) (onFulfilled : A -> outcome B)
  : async B :=
  Async (now promise) (later promise)
    match settles promise with
    | Resolved a =>
        match onFulfilled a with
        | Returns b => Resolved b
        | Throws e => Rejected (Raised e)
        end
    | Rejected r => Rejected r
    end.

(** [promise.catch(onRejected)] with a handler that logs and returns. *)
Definition catch_ {A : Type} (promise : async A)
  (onRejected : reason -> list event * A) : async A :=
  match settles promise with
  | Resolved a => Async (now promise) (later promise) (Resolved a)
  | Rejected r =>
      let (logged, a) := onRejected r in
      Async (now promise) (later promise ++ logged)%list (Resolved a)
  end.

Module process.
(** [process.env], with the variables the program reads. *)
Record env : Type :=
  { INFERENCE_IP : string;
    HTTP_PORT : string;
    INFERENCE_URL : string;
    INFERENCE_USER_NAME : string;
    INFERENCE_PASSWORD : string;
    ALL_OBJECT_LABELS : string;
    PROJECT : string;
    CLOUD_BUCKET : string }.
End process.

Class World : Type :=
  { process_env : process.env;
    (** the reply the inference endpoint gives to a request *)
    request : string -> auth -> reply;
    (** the listing [new Storage(project).bucket(bucketName).getFiles()]
        resolves to, or its rejection *)
    getFiles : string -> string -> settled (list File) }.

Section Pipeline.
Context {host : Host} {world : World}.

(** Constants of lines 26-33. *)
Definition APP_URL : string := "http://" ++ process.INFERENCE_IP process_env.
Definition HTTP_PORT : string := process.HTTP_PORT process_env.
Definition INFERENCE_URL : string := process.INFERENCE_URL process_env.
Definition OBJECT_INFERENCE_API_URL : string :=
  APP_URL ++ ":" ++ HTTP_PORT ++ INFERENCE_URL.
Definition INFERENCE_USER_NAME : string := process.INFERENCE_USER_NAME process_env.
Definition INFERENCE_PASSWORD : string := process.INFERENCE_PASSWORD process_env.
Definition ALL_OBJECT_LABELS : list string :=
  split (process.ALL_OBJECT_LABELS process_env) " ".

(** *** InferenceClient *)
Definition recognizeObjectAPIAsync (gcsURI : string) : async string :=
  if negb (truthy gcsURI) then
    Async [] [] (Rejected (Message "Error: No gcURI found in sensorMessage"))
  else if negb (startsWith gcsURI "gs://") then
    Async [] [] (Rejected (Message "Error: gcsURI must start with gs://"))
  else
    let apiUrl :=
      OBJECT_INFERENCE_API_URL ++ "?gcs_uri=" ++ encodeURIComponent gcsURI in
    let auth := {| user := INFERENCE_USER_NAME; pass := INFERENCE_PASSWORD |} in
    match request apiUrl auth with
    | Failed err =>
        Async [http_request apiUrl auth] [log_api_error err] (Rejected (Cause err))
    | Replied statusCode body =>
        Async [http_request apiUrl auth] [log_api_timing apiUrl]
          (if negb (statusCode =? 200)
           then Rejected (Message ("Error: Received  " ++ integer_text statusCode
                                     ++ " from API"))
           else Resolved body)
    end.

(** *** recognizeObjects: the inference call followed by the parser, with
    every failure replaced by an empty response *)
Definition recognizeObjects (gcsPath : string) : async VisionResponse.t :=
  let promise :=
    catch_ (then_ (recognizeObjectAPIAsync gcsPath)
              (fun response => createVisionResponse response))
      (fun error => ([log_recognize_error error], VisionResponse.new)) in
  Async (log_recognizeObjects gcsPath :: now promise) (later promise)
    (settles promise).

(** *** FileProcessor *)

(** The loop of lines 66-70 over the labels still to search. *)
Fixpoint search_labels (labels : list string) (visionResponse : VisionResponse.t)
  : list event * outcome unit :=
  match labels with
  | [] => ([], Returns tt)
  | label :: rest =>
      match findObject label visionResponse with
      | Throws e => ([], Throws e)
      | Returns found =>
          let (logged, result) := search_labels rest visionResponse in
          (log_searching label found :: logged, result)
      end
  end.

Definition processOneFile (bucketName fileName : string) : async unit :=
  let awaited := recognizeObjects ("gs://" ++ bucketName ++ "/" ++ fileName) in
  match settles awaited with
  | Rejected r =>
      Async (log_processOneFile fileName :: now awaited) (later awaited)
        (Rejected r)
  | Resolved visionResponse =>
      let (logged, result) := search_labels ALL_OBJECT_LABELS visionResponse in
      Async (log_processOneFile fileName :: now awaited)
        (later awaited ++ log_vision_response visionResponse :: logged)%list
        match result with
        | Returns _ => Resolved tt
        | Throws e => Rejected (Raised e)
        end
  end.

(** *** BucketScanner *)

(** One call of the [forEach] callback. The state is the counter [i], the
    events of the current turn, and the events the started calls leave for
    later turns. The promise of [processOneFile] is dropped. *)
Definition forEach_callback (bucketName : string)
  (state : nat * list event * list event) (file : File)
  : nat * list event * list event :=
  let '(i, turn, pending) := state in
  if (i <? 2)%nat then
    let call := processOneFile bucketName (name file) in
    (S i, (turn ++ log_processAllFiles_index i :: now call)%list,
     (pending ++ later call)%list)
  else (S i, turn, pending).

Definition processAllFiles (bucketName : string) : async unit :=
  let project := process.PROJECT process_env in
  match getFiles project bucketName with
  | Rejected r => Async [storage_getFiles project bucketName] [] (Rejected r)
  | Resolved files =>
      let '(i, turn, pending) :=
        fold_left (forEach_callback bucketName) files (1%nat, [], []) in
      Async [storage_getFiles project bucketName]
        (turn ++ log_processAllFiles_total i :: pending)%list
        (Resolved tt)
  end.
End Pipeline.

(** File names for which [processOneFile] was entered, read off its first
    statement. *)
Fixpoint processed_files (trace : list event) : list string :=
  match trace with
  | [] => []
  | log_processOneFile fileName :: rest => fileName :: processed_files rest
  | _ :: rest => processed_files rest
  end.

(** ** Detection payloads

    A payload as the inference endpoint documents it: label keys, each with
    its sequence of records; a record is an object. *)

Notation record := (list (string * value)) (only parsing).
Notation payload := (list (string * list record)) (only parsing).

(** The parsed object a payload stands for, with its keys in iteration
    order. *)
Definition payload_value (p : payload) : value :=
  VObj (map (fun entry => (fst entry, VArr (map VObj (snd entry)))) p).

(** The value read from a record under a field name. *)
Definition field (r : record) (name : string) : value :=
  match own_property r name with
  | Some v => v
  | None => VUndefined
  end.

Definition box_of (key : string) (r : record) : BoundingBox.t :=
  BoundingBox.new key (field r "x") (field r "y") (field r "w") (field r "h")
    (field r "score").

(** One box per record, key after key and record after record. *)
Definition boxes_of (p : payload) : list BoundingBox.t :=
  flat_map (fun entry => map (box_of (fst entry)) (snd entry)) p.

Definition record_count (p : payload) : nat :=
  list_sum (map (fun entry => length (snd entry)) p).

(** ** The four ways the inference of one file can fail *)

Inductive error_kind : Type :=
| InvalidInputError
| NetworkError
| UpstreamError
| ParseError.

Section Failures.
Context {host : Host} {world : World}.

Definition api_url (gcsURI : string) : string :=
  OBJECT_INFERENCE_API_URL ++ "?gcs_uri=" ++ encodeURIComponent gcsURI.

Definition credentials : auth :=
  {| user := INFERENCE_USER_NAME; pass := INFERENCE_PASSWORD |}.

Definition valid_uri (gcsURI : string) : Prop :=
  gcsURI <> EmptyString /\ startsWith gcsURI "gs://" = true.

Inductive inference_fails (gcsURI : string) : error_kind -> Prop :=
| fails_invalid_input :
    gcsURI = EmptyString \/ startsWith gcsURI "gs://" = false ->
    inference_fails gcsURI InvalidInputError
| fails_network (err : string) :
    valid_uri gcsURI ->
    request (api_url gcsURI) credentials = Failed err ->
    inference_fails gcsURI NetworkError
| fails_upstream (statusCode : Z) (body : string) :
    valid_uri gcsURI ->
    request (api_url gcsURI) credentials = Replied statusCode body ->
    statusCode <> 200 ->
    inference_fails gcsURI UpstreamError
| fails_parse (body : string) (e : exception) :
    valid_uri gcsURI ->
    request (api_url gcsURI) credentials = Replied 200 body ->
    createVisionResponse body = Throws e ->
    inference_fails gcsURI ParseError.
End Failures.

(** [s] contains [t] as a substring. *)
Definition contains (s t : string) : Prop :=
  exists before after, s = before ++ t ++ after.

(** ** A host and a world to run the program on

    An executable instance of the two interfaces over 8-bit strings, used to
    evaluate the program on concrete payloads. Nothing below is assumed by the
    properties, which hold for every [Host] and every [World]. *)

Module Sample.

Definition code (c : ascii) : N := N_of_ascii c.

(** *** Case mapping on the characters of code 0-255: the letters A-Z and
    the accented capitals of codes 192-222, the multiplication sign
    excepted. *)
Definition lower_char (c : ascii) : ascii :=
  let n := code c in
  if ((65 <=? n) && (n <=? 90))%N
     || ((192 <=? n) && (n <=? 222) && negb (n =? 215))%N
  then ascii_of_N (n + 32)
  else c.

Fixpoint lower (s : string) : string :=
  match s with
  | EmptyString => EmptyString
  | String c rest => String (lower_char c) (lower rest)
  end.

(** *** Percent-encoding: unreserved characters are kept, every other
    character is written as the two-digit hexadecimal codes of its UTF-8
    bytes. *)
Definition hex_digit (n : N) : ascii :=
  if (n <? 10)%N then ascii_of_N (48 + n) else ascii_of_N (55 + n).

Definition percent (byte : N) : string :=
  String "%" (String (hex_digit (byte / 16)) (String (hex_digit (byte mod 16))
    EmptyString)).

Definition unreserved (c : ascii) : bool :=
  let n := code c in
  (((65 <=? n) && (n <=? 90)) || ((97 <=? n) && (n <=? 122))
   || ((48 <=? n) && (n <=? 57))
   || existsb (N.eqb n) [45; 95; 46; 33; 126; 42; 39; 40; 41])%N.

Fixpoint encode (s : string) : string :=
  match s with
  | EmptyString => EmptyString
  | String c rest =>
      let n := code c in
      (if unreserved c then String c EmptyString
       else if (n <? 128)%N then percent n
       else percent (192 + n / 64) ++ percent (128 + n mod 64))
      ++ encode rest
  end.

(** *** Property order of an ordinary object: array indices in ascending
    order, then the other names in order of creation; defining a name again
    keeps its place. *)
Definition array_index (key : string) : option N :=
  match canonical_index key with
  | Some n => if (n <? 4294967295)%N then Some n else None
  | None => None
  end.

Fixpoint replace_property (properties : list (string * value)) (key : string)
  (v : value) : list (string * value) :=
  match properties with
  | [] => []
  | (k, old) :: rest =>
      if String.eqb k key then (k, v) :: rest
      else (k, old) :: replace_property rest key v
  end.

Fixpoint insert_index (properties : list (string * value)) (n : N)
  (key : string) (v : value) : list (string * value) :=
  match properties with
  | [] => [(key, v)]
  | (k, e) :: rest =>
      match array_index k with
      | Some m =>
          if (m <? n)%N then (k, e) :: insert_index rest n key v
          else (key, v) :: properties
      | None => (key, v) :: properties
      end
  end.

Definition define_property (properties : list (string * value)) (key : string)
  (v : value) : list (string * value) :=
  match own_property properties key with
  | Some _ => replace_property properties key v
  | None =>
      match array_index key with
      | Some n => insert_index properties n key v
      | None => (properties ++ [(key, v)])%list
      end
  end.

(** *** JSON texts *)
Definition is_whitespace (c : ascii) : bool :=
  existsb (N.eqb (code c)) [32; 9; 10; 13]%N.

Definition is_digit (c : ascii) : bool :=
  ((48 <=? code c) && (code c <=? 57))%N.

Fixpoint skip_whitespace (s : string) : string :=
  match s with
  | String c rest => if is_whitespace c then skip_whitespace rest else s
  | EmptyString => s
  end.

(** The longest run of digits at the head of [s], and what follows it. *)
Fixpoint digits (s : string) : string * string :=
  match s with
  | String c rest =>
      if is_digit c then let (ds, after) := digits rest in (String c ds, after)
      else (EmptyString, s)
  | EmptyString => (EmptyString, s)
  end.

Definition digits1 (s : string) : option (uint * string) :=
  match digits s with
  | (EmptyString, _) => None
  | (ds, after) =>
      match NilEmpty.uint_of_string ds with
      | Some u => Some (u, after)
      | None => None
      end
  end.

(** Integer part: a single [0], or a run of digits that does not start
    with [0]. *)
Definition integer_part (s : string) : option (uint * string) :=
  match s with
  | String c rest =>
      if (code c =? 48)%N then Some (D0 Nil, rest) else digits1 s
  | EmptyString => None
  end.

Definition fraction_part (s : string) : option (uint * string) :=
  match s with
  | String c rest => if (code c =? 46)%N then digits1 rest else Some (Nil, s)
  | EmptyString => Some (Nil, s)
  end.

Definition exponent_part (s : string) : option (option int * string) :=
  match s with
  | String c rest =>
      if ((code c =? 101) || (code c =? 69))%N then
        match rest with
        | String sign rest' =>
            if (code sign =? 45)%N then
              option_map (fun '(u, after) => (Some (Neg u), after)) (digits1 rest')
            else if (code sign =? 43)%N then
              option_map (fun '(u, after) => (Some (Pos u), after)) (digits1 rest')
            else
              option_map (fun '(u, after) => (Some (Pos u), after)) (digits1 rest)
        | EmptyString => None
        end
      else Some (None, s)
  | EmptyString => Some (None, s)
  end.

Definition parse_number (s : string) : option (decimal * string) :=
  let (negative, s1) :=
    match s with
    | String c rest => if (code c =? 45)%N then (true, rest) else (false, s)
    | EmptyString => (false, s)
    end in
  match integer_part s1 with
  | None => None
  | Some (i, s2) =>
      match fraction_part s2 with
      | None => None
      | Some (f, s3) =>
          match exponent_part s3 with
          | None => None
          | Some (e, s4) =>
              let i' := if negative then Neg i else Pos i in
              Some (match e with
                    | None => Decimal i' f
                    | Some e' => DecimalExp i' f e'
                    end, s4)
          end
      end
  end.

Definition hex_value (c : ascii) : option N :=
  let n := code c in
  if ((48 <=? n) && (n <=? 57))%N then Some (n - 48)%N
  else if ((65 <=? n) && (n <=? 70))%N then Some (n - 55)%N
  else if ((97 <=? n) && (n <=? 102))%N then Some (n - 87)%N
  else None.

(** The code unit of a [\u] escape. Code units above 255 have no
    counterpart among 8-bit strings and are refused here. *)
Definition escaped_unit (h1 h2 h3 h4 : ascii) : option ascii :=
  match hex_value h1, hex_value h2, hex_value h3, hex_value h4 with
  | Some a, Some b, Some c, Some d =>
      let n := (((a * 16 + b) * 16 + c) * 16 + d)%N in
      if (n <? 256)%N then Some (ascii_of_N n) else None
  | _, _, _, _ => None
  end.

Definition escaped_char (c : ascii) : option ascii :=
  match code c with
  | 34%N => Some "034"%char
  | 92%N => Some "092"%char
  | 47%N => Some "047"%char
  | 98%N => Some "008"%char
  | 102%N => Some "012"%char
  | 110%N => Some "010"%char
  | 114%N => Some "013"%char
  | 116%N => Some "009"%char
  | _ => None
  end.

(** The characters of a string literal after its opening quotation mark,
    and what follows the closing one. *)
Fixpoint parse_characters (s : string) : option (string * string) :=
  match s with
  | EmptyString => None
  | String c rest =>
      if (code c =? 34)%N then Some (EmptyString, rest)
      else if (code c <? 32)%N then None
      else if (code c =? 92)%N then
        match rest with
        | String e rest' =>
            if (code e =? 117)%N then
              match rest' with
              | String h1 (String h2 (String h3 (String h4 rest''))) =>
                  match escaped_unit h1 h2 h3 h4, parse_characters rest'' with
                  | Some u, Some (chars, after) => Some (String u chars, after)
                  | _, _ => None
                  end
              | _ => None
              end
            else
              match escaped_char e, parse_characters rest' with
              | Some u, Some (chars, after) => Some (String u chars, after)
              | _, _ => None
              end
        | EmptyString => None
        end
      else
        match parse_characters rest with
        | Some (chars, after) => Some (String c chars, after)
        | None => None
        end
  end.

Definition parse_string (s : string) : option (string * string) :=
  match s with
  | String c rest => if (code c =? 34)%N then parse_characters rest else None
  | EmptyString => None
  end.

(** What follows [word] at the head of [s]. *)
Fixpoint after_word (word s : string) : option string :=
  match word, s with
  | EmptyString, _ => Some s
  | String a word', String b rest =>
      if Ascii.eqb a b then after_word word' rest else None
  | String _ _, EmptyString => None
  end.

(** A value, the elements of an array after its first, and the members of an
    object after its first. Every call spends one unit of [fuel]. *)
Fixpoint parse_value (fuel : nat) (s : string) {struct fuel}
  : option (value * string) :=
  match fuel with
  | O => None
  | S fuel' =>
      match skip_whitespace s with
      | EmptyString => None
      | String c rest as s' =>
          match code c with
          | 123%N =>
              match skip_whitespace rest with
              | String d rest' as inside =>
                  if (code d =? 125)%N then Some (VObj [], rest')
                  else parse_members fuel' [] inside
              | EmptyString => None
              end
          | 91%N =>
              match skip_whitespace rest with
              | String d rest' as inside =>
                  if (code d =? 93)%N then Some (VArr [], rest')
                  else parse_elements fuel' [] inside
              | EmptyString => None
              end
          | 34%N => option_map (fun '(str, after) => (VStr str, after))
                      (parse_string s')
          | 116%N => option_map (fun after => (VBool true, after))
                       (after_word "true" s')
          | 102%N => option_map (fun after => (VBool false, after))
                       (after_word "false" s')
          | 110%N => option_map (fun after => (VNull, after))
                       (after_word "null" s')
          | _ => option_map (fun '(d, after) => (VNum d, after))
                   (parse_number s')
          end
      end
  end

with parse_elements (fuel : nat) (seen : list value) (s : string) {struct fuel}
  : option (value * string) :=
  match fuel with
  | O => None
  | S fuel' =>
      match parse_value fuel' s with
      | None => None
      | Some (v, after) =>
          match skip_whitespace after with
          | String c rest =>
              if (code c =? 44)%N then parse_elements fuel' (seen ++ [v])%list rest
              else if (code c =? 93)%N then Some (VArr (seen ++ [v])%list, rest)
              else None
          | EmptyString => None
          end
      end
  end

with parse_members (fuel : nat) (seen : list (string * value)) (s : string)
  {struct fuel} : option (value * string) :=
  match fuel with
  | O => None
  | S fuel' =>
      match parse_string (skip_whitespace s) with
      | None => None
      | Some (key, after_key) =>
          match skip_whitespace after_key with
          | String colon after_colon =>
              if (code colon =? 58)%N then
                match parse_value fuel' after_colon with
                | None => None
                | Some (v, after) =>
                    let seen' := define_property seen key v in
                    match skip_whitespace after with
                    | String c rest =>
                        if (code c =? 44)%N then parse_members fuel' seen' rest
                        else if (code c =? 125)%N then Some (VObj seen', rest)
                        else None
                    | EmptyString => None
                    end
                end
              else None
          | EmptyString => None
          end
      end
  end.

(** The whole text is one value, with whitespace around it. Each call of
    the three functions above is preceded by at most one other without a
    character being consumed, so twice the length of the text bounds their
    nesting. *)
Definition parse (text : string) : option value :=
  match parse_value (2 * String.length text + 2) text with
  | Some (v, after) =>
      match skip_whitespace after with
      | EmptyString => Some v
      | String _ _ => None
      end
  | None => None
  end.

(** *** Comparison of an index with a bound: exact on the decimal literal of
    a number, on booleans, [null] and [undefined]; any other bound is taken
    as not-a-number. *)
Definition below_decimal (i : nat) (d : decimal) : bool :=
  let '(whole, fraction, exponent) :=
    match d with
    | Decimal whole fraction => (whole, fraction, 0)
    | DecimalExp whole fraction exponent => (whole, fraction, Z.of_int exponent)
    end in
  match whole with
  | Neg _ => false
  | Pos u =>
      let mantissa := Z.of_uint (Decimal.app u fraction) in
      let scale := exponent - Z.of_nat (Decimal.nb_digits fraction) in
      if 0 <=? scale then Z.of_nat i <? mantissa * 10 ^ scale
      else Z.of_nat i * 10 ^ (- scale) <? mantissa
  end.

Definition below (i : nat) (bound : value) : option bool :=
  match bound with
  | VNum d => Some (below_decimal i d)
  | VBool b => Some (b && (i =? 0)%nat)
  | _ => Some false
  end.

Definition host : Host :=
  {| toLowerCase := lower;
     toLocaleLowerCase := lower;
     JSON_parse := parse;
     lessThan := below;
     encodeURIComponent := encode |}.

(** JSON texts are written with an apostrophe where the text has a
    quotation mark. *)
Definition json (s : string) : string :=
  let fix go (s : string) : string :=
    match s with
    | EmptyString => EmptyString
    | String c rest =>
        String (if (code c =? 39)%N then "034"%char else c) (go rest)
    end in
  go s.

Definition environment : process.env :=
  {| process.INFERENCE_IP := "10.0.0.7";
     process.HTTP_PORT := "8082";
     process.INFERENCE_URL := "/v1/objectInference";
     process.INFERENCE_USER_NAME := "derby";
     process.INFERENCE_PASSWORD := "secret";
     process.ALL_OBJECT_LABELS := "car pedestrian";
     process.PROJECT := "cloud-derby";
     process.CLOUD_BUCKET := "b" |}.

(** A world whose inference endpoint gives [answer] to every request and
    whose buckets all list [files]. *)
Definition world (files : list string) (answer : reply) : World :=
  {| process_env := environment;
     request := fun _ _ => answer;
     getFiles := fun _ _ => Resolved (map Build_File files) |}.

End Sample.

(** ** Inputs the properties are run on *)

Module Inputs.
Definition one : value := VNum (Decimal (Pos (D1 Nil)) Nil).
Definition two : value := VNum (Decimal (Pos (D2 Nil)) Nil).
Definition three : value := VNum (Decimal (Pos (D3 Nil)) Nil).
Definition four : value := VNum (Decimal (Pos (D4 Nil)) Nil).
Definition nine_tenths : value := VNum (Decimal (Pos (D0 Nil)) (D9 Nil)).

Definition box (label : string) : BoundingBox.t :=
  BoundingBox.new label one two three four nine_tenths.

(** The payload of the end-to-end test and its parsed form. *)
Definition car_text : string :=
  Sample.json "{'car':[{'x':1,'y':2,'w':3,'h':4,'score':0.9}]}".

Definition car_record : record :=
  [("x", one); ("y", two); ("w", three); ("h", four); ("score", nine_tenths)].

Definition car_payload : payload := [("car", [car_record])].

(** Two keys, three records; the second record of [person] has no fields. *)
Definition crowd_text : string :=
  Sample.json
    "{'person':[{'x':1,'y':2,'w':3,'h':4,'score':0.9},{}],'car':[{'x':4,'y':3,'w':2,'h':1,'score':0.9}]}".

Definition crowd_payload : payload :=
  [("person", [car_record; []]);
   ("car", [[("x", four); ("y", three); ("w", two); ("h", one);
             ("score", nine_tenths)]])].

(** A record that has [x] only. *)
Definition partial_text : string := Sample.json "{'car':[{'x':1}]}".
Definition partial_payload : payload := [("car", [[("x", one)]])].

Definition file_uri : string := "gs://b/f.jpg".
Definition file_url : string :=
  "http://10.0.0.7:8082/v1/objectInference?gcs_uri=gs%3A%2F%2Fb%2Ff.jpg".

Definition detecting : World :=
  Sample.world ["f.jpg"; "g.jpg"; "h.jpg"] (Replied 200 car_text).
Definition failing : World :=
  Sample.world ["f.jpg"] (Replied 500 "Internal Server Error").
Definition unreachable : World :=
  Sample.world ["f.jpg"] (Failed "ECONNREFUSED").
Definition garbled : World :=
  Sample.world ["f.jpg"] (Replied 200 "<html>").
End Inputs.

Import Inputs.

(** ** Reading traces *)

(** The requests a trace issues, in order. *)
Fixpoint requests (trace : list event) : list (string * auth) :=
  match trace with
  | [] => []
  | http_request uri credentials :: rest => (uri, credentials) :: requests rest
  | _ :: rest => requests rest
  end.

(** The errors [recognizeObjects] reports at line 115. *)
Fixpoint reported_errors (trace : list event) : list reason :=
  match trace with
  | [] => []
  | log_recognize_error error :: rest => error :: reported_errors rest
  | _ :: rest => reported_errors rest
  end.

(** ** MAIN (lines 17 and 187-191)

    The banners are plain text; everything else the program does is what
    [processAllFiles] does. The promise kept in [files] is never awaited, so
    its rejection, if any, is left unhandled. *)

Inductive output : Type :=
| console_log (text : string)
| effect (e : event).

Record program : Type := Program
  { first_turn : list output;
    later_turns : list output;
    unhandled_rejection : option reason }.

Section Main.
Context {host : Host} {world : World}.

Definition main : program :=
  let files := processAllFiles (process.CLOUD_BUCKET process_env) in
  Program
    (console_log "***Image processing is starting up***"
     :: console_log "Image processing started..."
     :: map effect (now files)
     ++ [console_log "Image processing is in progress..."])%list
    (map effect (later files))
    match settles files with
    | Resolved _ => None
    | Rejected r => Some r
    end.
End Main.

(** The events among the outputs of the program. *)
Fixpoint effects (outputs : list output) : list event :=
  match outputs with
  | [] => []
  | effect e :: rest => e :: effects rest
  | console_log _ :: rest => effects rest
  end.

(** ** What one key adds to the response

    The inner loop read as a function of the value found under the key, for
    the values whose length does not depend on the host: an array gives one box
    per element, a string one box per character, [null] cannot be measured,
    and a boolean, a number or an object has no elements. *)

Definition element_box (key : string) (element : value) : outcome BoundingBox.t :=
  let* x := get element "x" in
  let* y := get element "y" in
  let* w := get element "w" in
  let* h := get element "h" in
  let* score := get element "score" in
  Returns (BoundingBox.new key x y w h score).

Fixpoint element_boxes (key : string) (elements : list value)
  : outcome (list BoundingBox.t) :=
  match elements with
  | [] => Returns []
  | element :: rest =>
      let* bBox := element_box key element in
      let* bBoxes := element_boxes key rest in
      Returns (bBox :: bBoxes)
  end.

(** The box of an element none of whose fields can be found. *)
Definition blank (key : string) : BoundingBox.t :=
  BoundingBox.new key VUndefined VUndefined VUndefined VUndefined VUndefined.

Definition contribution (key : string) (found : value)
  : outcome (list BoundingBox.t) :=
  match found with
  | VUndefined | VNull => Throws TypeError
  | VBool _ | VNum _ | VObj _ => Returns []
  | VStr s => Returns (repeat (blank key) (String.length s))
  | VArr elements => element_boxes key elements
  end.

Fixpoint contributions (properties : list (string * value))
  : outcome (list BoundingBox.t) :=
  match properties with
  | [] => Returns []
  | (key, found) :: rest =>
      let* bBoxes := contribution key found in
      let* more := contributions rest in
      Returns (bBoxes ++ more)%list
  end.

(** An object that has a [length] of its own. *)
Definition array_like (v : value) : bool :=
  match v with
  | VObj properties =>
      match own_property properties "length" with
      | Some _ => true
      | None => false
      end
  | _ => false
  end.

(** An element whose fields can be read: anything but [null] and
    [undefined]. *)
Definition readable (element : value) : bool :=
  match element with
  | VUndefined | VNull => false
  | _ => true
  end.

(** The fields of an element: its own properties when it is an object, none
    otherwise. *)
Definition fields_of (element : value) : record :=
  match element with
  | VObj properties => properties
  | _ => []
  end.

(** An object whose keys each hold an array. *)
Definition arrays_value (p : list (string * list value)) : value :=
  VObj (map (fun entry => (fst entry, VArr (snd entry))) p).

(** [labels.join(" ")], the inverse of [split]. *)
Fixpoint join (separator : ascii) (pieces : list string) : string :=
  match pieces with
  | [] => EmptyString
  | [piece] => piece
  | piece :: rest => piece ++ String separator (join separator rest)
  end.

Fixpoint occurrences (c : ascii) (s : string) : nat :=
  match s with
  | EmptyString => O
  | String d rest => ((if Ascii.eqb d c then 1 else 0) + occurrences c rest)%nat
  end.

(** ** More inputs *)

Module Cases.
(** Arrays with elements that are not records. *)
Definition mixed_text : string := Sample.json "{'car':[{'x':1},7,'s'],'dog':[[]]}".
Definition mixed_arrays : list (string * list value) :=
  [("car", [VObj [("x", one)];
            VNum (Decimal (Pos (D7 Nil)) Nil);
            VStr "s"]);
   ("dog", [VArr []])].

Definition null_record_text : string := Sample.json "{'car':[{'x':1},null]}".
Definition null_record_arrays : list (string * list value) :=
  [("car", [VObj [("x", one)]; VNull])].

(** Keys that hold no sequence. *)
Definition scalars_text : string := Sample.json "{'car':7,'dog':true,'cat':{'x':1}}".
Definition scalars : list (string * value) :=
  [("car", VNum (Decimal (Pos (D7 Nil)) Nil));
   ("dog", VBool true);
   ("cat", VObj [("x", one)])].

Definition words_text : string := Sample.json "{'car':'ab','dog':''}".
Definition words : list (string * string) := [("car", "ab"); ("dog", EmptyString)].

(** A world whose bucket cannot be listed. *)
Definition unlisted : World :=
  {| process_env := Sample.environment;
     request := fun _ _ => Replied 200 car_text;
     getFiles := fun _ _ => Rejected (Cause "ENOTFOUND") |}.

Definition failing_too : World :=
  Sample.world [] (Replied 500 "Bad Gateway").

(** A world in which the label variable is empty. *)
Definition unlabelled : World :=
  {| process_env :=
       {| process.INFERENCE_IP := "10.0.0.7";
          process.HTTP_PORT := "8082";
          process.INFERENCE_URL := "/v1/objectInference";
          process.INFERENCE_USER_NAME := "derby";
          process.INFERENCE_PASSWORD := "secret";
          process.ALL_OBJECT_LABELS := EmptyString;
          process.PROJECT := "cloud-derby";
          process.CLOUD_BUCKET := "b" |};
     request := fun _ _ => Replied 200 car_text;
     getFiles := fun _ _ => Resolved [Build_File "f.jpg"] |}.
End Cases.

Import Cases.

(** * Properties *)

(** ** Strings *)

Lemma prefix_app (t s : string) :
  prefix t s = true <-> exists after, s = t ++ after.
Proof.
  revert s; induction t as [|c t IH]; intros s; simpl.
  - destruct s; simpl; split; eauto.
  - destruct s as [|d s]; simpl.
    + split; [discriminate | intros [after E]; discriminate].
    + destruct (ascii_dec c d) as [->|ne].
      * rewrite IH. split; intros [after E]; exists after.
        -- now rewrite E.
        -- now injection E.
      * split; [discriminate|]. intros [after E]. injection E as E1 _. congruence.
Qed.

Lemma prefix_empty (s : string) : prefix EmptyString s = true.
Proof. now destruct s. Qed.

Lemma indexOf_from_step (t s : string) (p : Z) :
  indexOf_from t s p =
  if prefix t s then p
  else match s with
       | EmptyString => -1
       | String _ rest => indexOf_from t rest (p + 1)
       end.
Proof. now destruct s. Qed.

Lemma indexOf_from_contains (t s : string) (p : Z) :
  0 <= p -> (0 <= indexOf_from t s p <-> contains s t).
Proof.
  revert p; induction s as [|c s IH]; intros p Hp;
    rewrite indexOf_from_step; destruct (prefix t _) eqn:E.
  - split; [intros _|lia]. apply prefix_app in E as [after E].
    exists EmptyString, after. exact E.
  - split; [lia|]. intros (before & after & E').
    destruct before; [|discriminate]. simpl in E'.
    assert (prefix t EmptyString = true) by (apply prefix_app; eauto).
    congruence.
  - split; [intros _|lia]. apply prefix_app in E as [after E].
    exists EmptyString, after. exact E.
  - rewrite IH by lia. split; intros (before & after & E').
    + exists (String c before), after. simpl. now rewrite E'.
    + destruct before as [|d before]; simpl in E'.
      * assert (prefix t (String c s) = true) by (apply prefix_app; eauto).
        congruence.
      * injection E' as _ E'. exists before, after. exact E'.
Qed.

Lemma indexOf_contains (s t : string) : 0 <= indexOf s t <-> contains s t.
Proof. apply indexOf_from_contains. lia. Qed.

Lemma indexOf_empty (s : string) : indexOf s EmptyString = 0.
Proof. unfold indexOf. rewrite indexOf_from_step. now rewrite prefix_empty. Qed.

(** ** findObject *)

Section MatcherFacts.
Context {host : Host}.

Lemma label_matches_contains (objectType : string) (bBox : BoundingBox.t) :
  label_matches objectType bBox = true <->
  contains (toLocaleLowerCase (BoundingBox.label bBox)) (toLowerCase objectType).
Proof.
  unfold label_matches. rewrite Z.leb_le. apply indexOf_contains.
Qed.

(** The downward loop from [i] has looked at the first [i] boxes. *)
Lemma findObject_loop_firstn (objectType : string) (bBoxes : list BoundingBox.t)
  (i : nat) :
  (i <= length bBoxes)%nat ->
  findObject_loop objectType bBoxes i =
  Returns (existsb (label_matches objectType) (firstn i bBoxes)).
Proof.
  induction i as [|i IH]; intros Hi; simpl findObject_loop.
  - reflexivity.
  - destruct (nth_error bBoxes i) as [bBox|] eqn:E.
    + assert (Hsplit : firstn (S i) bBoxes = (firstn i bBoxes ++ [bBox])%list).
      { clear IH. revert bBoxes Hi E. induction i as [|i IHi]; intros [|b l] Hi E;
          simpl in *; try discriminate; try lia.
        - now injection E as ->.
        - f_equal. apply IHi; [lia | exact E]. }
      rewrite Hsplit, existsb_app. simpl. rewrite orb_false_r.
      destruct (label_matches objectType bBox).
      * now rewrite orb_true_r.
      * rewrite orb_false_r. apply IH. lia.
    + apply nth_error_None in E. lia.
Qed.

Lemma findObject_existsb (objectType : string) (visionResponse : VisionResponse.t) :
  findObject objectType visionResponse =
  Returns (existsb (label_matches objectType)
             (VisionResponse.bBoxes visionResponse)).
Proof.
  unfold findObject. rewrite findObject_loop_firstn by lia.
  now rewrite firstn_all.
Qed.
End MatcherFacts.

(** C1. For every target label and every response, [findObject] returns, and
    it returns true exactly when some box of the response has a label whose
    lower-cased form contains the lower-cased target as a substring; on the
    empty response it returns false. *)
Theorem findObject_true_iff_label_contains {host : Host}
  (objectType : string) (visionResponse : VisionResponse.t) :
  (exists found,
     findObject objectType visionResponse = Returns found /\
     (found = true <->
      exists bBox,
        In bBox (VisionResponse.bBoxes visionResponse) /\
        contains (toLocaleLowerCase (BoundingBox.label bBox))
                 (toLowerCase objectType))) /\
  findObject objectType VisionResponse.new = Returns false.
Proof.
  split; [|reflexivity].
  eexists. split; [apply findObject_existsb|].
  rewrite existsb_exists. split; intros (bBox & Hin & Hm); exists bBox;
    (split; [exact Hin|]); now apply label_matches_contains.
Qed.

(** C9. Reordering the boxes of a response never changes what [findObject]
    returns for a target label. *)
Theorem findObject_permutation {host : Host}
  (objectType : string) (visionResponse reordered : VisionResponse.t) :
  Permutation (VisionResponse.bBoxes visionResponse)
              (VisionResponse.bBoxes reordered) ->
  findObject objectType visionResponse = findObject objectType reordered.
Proof.
  intros Hperm. rewrite !findObject_existsb. f_equal.
  induction Hperm; simpl.
  - reflexivity.
  - now rewrite IHHperm.
  - now rewrite !orb_assoc, (orb_comm (label_matches _ y)).
  - congruence.
Qed.

(** C10. With the empty string as target, [findObject] returns true on every
    response that has a box, and false only on the empty response. The
    lower-cased empty string is the empty string. *)
Theorem findObject_empty_target {host : Host} (visionResponse : VisionResponse.t) :
  toLowerCase EmptyString = EmptyString ->
  (VisionResponse.bBoxes visionResponse <> [] ->
   findObject EmptyString visionResponse = Returns true) /\
  (findObject EmptyString visionResponse = Returns false <->
   VisionResponse.bBoxes visionResponse = []).
Proof.
  intros Hlower. rewrite findObject_existsb.
  assert (Hall : forall bBox, label_matches EmptyString bBox = true).
  { intros bBox. unfold label_matches. now rewrite Hlower, indexOf_empty. }
  destruct (VisionResponse.bBoxes visionResponse) as [|bBox rest]; simpl.
  - split; [congruence|]. split; reflexivity.
  - rewrite Hall. simpl. split; [reflexivity|]. split; discriminate.
Qed.

(** ** Index keys *)

Lemma to_uint_nonnil (n : N) : N.to_uint n <> Nil.
Proof.
  destruct n as [|p]; simpl.
  - discriminate.
  - apply DecimalPos.Unsigned.to_uint_nonnil.
Qed.

Lemma canonical_index_text (n : N) : canonical_index (index_text n) = Some n.
Proof.
  unfold canonical_index, index_text.
  rewrite NilZero.usu by apply to_uint_nonnil.
  rewrite DecimalN.Unsigned.of_to. now rewrite String.eqb_refl.
Qed.

Lemma index_key_injective (i j : nat) : index_key i = index_key j -> i = j.
Proof.
  unfold index_key. intros E.
  assert (E' : Some (N.of_nat i) = Some (N.of_nat j))
    by now rewrite <- !canonical_index_text, E.
  injection E' as E'. now apply Nat2N.inj.
Qed.

Lemma own_property_In (properties : list (string * value)) (name : string)
  (v : value) :
  own_property properties name = Some v -> In name (map fst properties).
Proof.
  induction properties as [|[k e] rest IH]; simpl; [discriminate|].
  destruct (String.eqb_spec k name); [now left | intros E; right; now apply IH].
Qed.

Lemma own_property_NoDup (properties : list (string * value)) (name : string)
  (v : value) :
  NoDup (map fst properties) -> In (name, v) properties ->
  own_property properties name = Some v.
Proof.
  induction properties as [|[k e] rest IH]; simpl; [tauto|].
  intros Hnd [E|Hin]; inversion Hnd as [|? ? Hk Hrest]; subst.
  - injection E as -> ->. now rewrite String.eqb_refl.
  - destruct (String.eqb_spec k name) as [->|ne].
    + exfalso. apply Hk. now apply (in_map fst) in Hin.
    + now apply IH.
Qed.

(** ** The inner loop never runs out of fuel *)

(** The indices below [i] all name entries of [found] that are not
    [undefined]. *)
Definition visited (found : value) (i : nat) : Prop :=
  forall j, (j < i)%nat ->
    exists e, get found (index_key j) = Returns e /\ e <> VUndefined.

Lemma get_index_array (elements : list value) (i : nat) :
  get (VArr elements) (index_key i) =
  Returns (match nth_error elements i with Some e => e | None => VUndefined end).
Proof.
  unfold get, index_key. rewrite canonical_index_text, Nat2N.id.
  destruct (N.ltb_spec (N.of_nat i) (N.of_nat (length elements))) as [Hlt|Hge].
  - now destruct (nth_error elements i).
  - assert (Hnone : nth_error elements i = None) by (apply nth_error_None; lia).
    now rewrite Hnone.
Qed.

Lemma get_index_string_length (s : string) (i : nat) (e : value) :
  get (VStr s) (index_key i) = Returns e -> e <> VUndefined ->
  (i < String.length s)%nat.
Proof.
  unfold get, index_key. rewrite canonical_index_text.
  destruct (N.ltb_spec (N.of_nat i) (N.of_nat (String.length s))) as [Hlt|Hge].
  - intros _ _. lia.
  - intros [= <-] Hne. congruence.
Qed.

Lemma visited_size (found : value) (i : nat) :
  visited found i -> (i <= size found)%nat.
Proof.
  intros Hv. destruct i as [|i]; [lia|].
  destruct found as [| |b|d|s|elements|properties]; simpl;
    try (destruct (Hv i) as (e & E & Hne); [lia|]; simpl in E;
         try discriminate; injection E as <-; congruence).
  - destruct (Hv i) as (e & E & Hne); [lia|].
    apply (get_index_string_length s i e E) in Hne. lia.
  - destruct (Hv i) as (e & E & Hne); [lia|].
    rewrite get_index_array in E.
    destruct (nth_error elements i) eqn:En.
    + assert (i < length elements)%nat by (apply nth_error_Some; congruence). lia.
    + injection E as <-. congruence.
  - assert (Hlen : (length (map index_key (seq 0 (S i)))
                    <= length (map fst properties))%nat).
    { apply NoDup_incl_length.
      - apply Injective_map_NoDup; [exact index_key_injective | apply seq_NoDup].
      - intros key Hin. apply in_map_iff in Hin as (j & <- & Hj).
        apply in_seq in Hj. destruct (Hv j) as (e & E & Hne); [lia|].
        simpl in E. destruct (own_property properties (index_key j)) eqn:Eo.
        + eapply own_property_In; eauto.
        + injection E as <-. congruence. }
    now rewrite !length_map, length_seq in Hlen.
Qed.

Section ParserFacts.
Context {host : Host}.

Lemma box_at_returns (objResponse found : value) (key : string) (i : nat)
  (bBox : BoundingBox.t) :
  get objResponse key = Returns found ->
  box_at objResponse key i = Returns bBox ->
  exists e, get found (index_key i) = Returns e /\ e <> VUndefined.
Proof.
  unfold box_at. intros -> Hbox. simpl in Hbox.
  destruct (get found (index_key i)) as [e|] eqn:E; [|discriminate].
  exists e. split; [reflexivity|]. intros ->. discriminate.
Qed.

Lemma records_loop_enough (objResponse found : value) (key : string) :
  get objResponse key = Returns found ->
  forall fuel i response,
    visited found i -> (size found < fuel + i)%nat ->
    records_loop fuel objResponse key i response <> None.
Proof.
  intros Hget. induction fuel as [|fuel IH]; intros i response Hv Hfuel.
  - apply visited_size in Hv. lia.
  - simpl. rewrite Hget. simpl.
    destruct (below_length i found) as [[|]|]; try discriminate.
    destruct (box_at objResponse key i) as [bBox|] eqn:Hbox; [|discriminate].
    apply IH; [|lia].
    intros j Hj. destruct (Nat.eq_dec j i) as [->|ne].
    + eapply box_at_returns; eauto.
    + apply Hv. lia.
Qed.

(** The fuel given to the inner loop is never used up: [add_records] takes its
    last branch for no input. *)
Lemma records_loop_fuel (objResponse : value) (key : string)
  (response : VisionResponse.t) :
  records_loop (records_fuel objResponse key) objResponse key 0 response <> None.
Proof.
  unfold records_fuel. destruct (get objResponse key) as [found|e] eqn:Hget.
  - eapply records_loop_enough; eauto; [intros j Hj|]; lia.
  - simpl. rewrite Hget. discriminate.
Qed.

(** *** The loops on a payload *)

Lemma get_field (r : record) (name : string) :
  get (VObj r) name = Returns (field r name).
Proof. unfold get, field. now destruct (own_property r name). Qed.

Lemma box_at_record (objResponse : value) (key : string) (records : list record)
  (i : nat) (r : record) :
  get objResponse key = Returns (VArr (map VObj records)) ->
  nth_error records i = Some r ->
  box_at objResponse key i = Returns (box_of key r).
Proof.
  intros Hget Hnth. unfold box_at. rewrite Hget. cbn [bind].
  rewrite get_index_array, nth_error_map, Hnth. cbn [option_map bind].
  now rewrite !get_field.
Qed.

Lemma records_loop_step (fuel : nat) (objResponse : value) (key : string)
  (i : nat) (response : VisionResponse.t) :
  records_loop (S fuel) objResponse key i response =
  match (let* found := get objResponse key in below_length i found) with
  | Throws e => Some (Throws e)
  | Returns false => Some (Returns response)
  | Returns true =>
      match box_at objResponse key i with
      | Throws e => Some (Throws e)
      | Returns bBox =>
          records_loop fuel objResponse key (S i)
            (VisionResponse.addBox response bBox)
      end
  end.
Proof. reflexivity. Qed.

Lemma records_loop_array (objResponse : value) (key : string)
  (records : list record) :
  get objResponse key = Returns (VArr (map VObj records)) ->
  forall n i response,
    (i + n = length records)%nat ->
    records_loop (S n) objResponse key i response =
    Some (Returns (VisionResponse.make
                     (VisionResponse.bBoxes response
                      ++ map (box_of key) (skipn i records))%list)).
Proof.
  intros Hget. induction n as [|n IH]; intros i response Hi.
  - simpl. rewrite Hget. simpl. rewrite length_map.
    replace (i <? length records)%nat with false
      by (symmetry; apply Nat.ltb_ge; lia).
    rewrite skipn_all2 by lia. simpl. rewrite app_nil_r.
    now destruct response.
  - assert (Hlt : (i < length records)%nat) by lia.
    destruct (nth_error records i) as [r|] eqn:Hnth;
      [|apply nth_error_None in Hnth; lia].
    rewrite records_loop_step, Hget. cbn [bind below_length].
    rewrite length_map.
    replace (i <? length records)%nat with true
      by (symmetry; apply Nat.ltb_lt; lia).
    rewrite (box_at_record _ _ _ _ _ Hget Hnth).
    rewrite IH by lia. cbn [VisionResponse.addBox VisionResponse.bBoxes].
    rewrite <- app_assoc. do 3 f_equal. simpl.
    clear - Hnth. revert i Hnth.
    induction records as [|r0 rest IHr]; intros [|i] Hnth; simpl in *;
      try discriminate.
    + now injection Hnth as ->.
    + now apply IHr.
Qed.

Lemma records_array (objResponse : value) (key : string) (records : list record)
  (response : VisionResponse.t) :
  get objResponse key = Returns (VArr (map VObj records)) ->
  add_records objResponse key response =
  Returns (VisionResponse.make
             (VisionResponse.bBoxes response ++ map (box_of key) records)%list).
Proof.
  intros Hget. unfold add_records, records_fuel. rewrite Hget. simpl size.
  rewrite length_map. now rewrite (records_loop_array _ _ _ Hget) by lia.
Qed.

Lemma keys_loop_payload (p rest : payload) (response : VisionResponse.t) :
  NoDup (map fst p) -> incl rest p ->
  keys_loop (payload_value p) (map fst rest) response =
  Returns (VisionResponse.make
             (VisionResponse.bBoxes response ++ boxes_of rest)%list).
Proof.
  intros Hnd. revert response.
  induction rest as [|[key records] rest IH]; intros response Hincl; simpl.
  - rewrite app_nil_r. now destruct response.
  - assert (Hget : get (payload_value p) key = Returns (VArr (map VObj records))).
    { unfold payload_value, get.
      rewrite (own_property_NoDup _ key (VArr (map VObj records))); auto.
      - now rewrite map_map.
      - apply in_map_iff. exists (key, records). split; [reflexivity|].
        apply Hincl. now left. }
    rewrite (records_array _ _ _ _ Hget). simpl.
    rewrite IH by (intros e He; apply Hincl; now right).
    simpl. now rewrite app_assoc.
Qed.

Lemma createVisionResponse_payload (jsonAPIResponse : string) (p : payload) :
  JSON_parse jsonAPIResponse = Some (payload_value p) ->
  NoDup (map fst p) ->
  createVisionResponse jsonAPIResponse =
  Returns (VisionResponse.make (boxes_of p)).
Proof.
  intros Hparse Hnd. unfold createVisionResponse. rewrite Hparse.
  replace (for_in_keys (payload_value p)) with (map fst p)
    by (simpl; now rewrite map_map).
  now rewrite keys_loop_payload by (auto using incl_refl).
Qed.

Lemma length_boxes_of (p : payload) : length (boxes_of p) = record_count p.
Proof.
  unfold boxes_of, record_count. induction p as [|[key records] p IH]; simpl.
  - reflexivity.
  - now rewrite length_app, length_map, IH.
Qed.
End ParserFacts.

(** C2. For every valid detection payload (an object whose keys each hold a
    sequence of records), [createVisionResponse] returns a response whose
    number of boxes is the number of records summed over all keys. *)
Theorem createVisionResponse_box_count {host : Host}
  (jsonAPIResponse : string) (p : payload) :
  JSON_parse jsonAPIResponse = Some (payload_value p) ->
  NoDup (map fst p) ->
  exists response,
    createVisionResponse jsonAPIResponse = Returns response /\
    length (VisionResponse.bBoxes response) = record_count p.
Proof.
  intros Hparse Hnd. eexists. split.
  - apply (createVisionResponse_payload _ p); assumption.
  - apply length_boxes_of.
Qed.

(** C3. For every valid detection payload, the boxes of the response are, key
    after key in iteration order and record after record in sequence order,
    one box per record, labelled with the key the record was found under and
    holding the record's [x], [y], [w], [h] and [score] as they are. *)
Theorem createVisionResponse_boxes_in_order {host : Host}
  (jsonAPIResponse : string) (p : payload) :
  JSON_parse jsonAPIResponse = Some (payload_value p) ->
  NoDup (map fst p) ->
  exists response,
    createVisionResponse jsonAPIResponse = Returns response /\
    VisionResponse.bBoxes response =
    flat_map (fun entry =>
                map (fun r =>
                       BoundingBox.new (fst entry) (field r "x") (field r "y")
                         (field r "w") (field r "h") (field r "score"))
                    (snd entry)) p.
Proof.
  intros Hparse Hnd. eexists. split.
  - apply (createVisionResponse_payload _ p); assumption.
  - reflexivity.
Qed.

(** C4, as the code has it. [createVisionResponse] throws when its input is
    not valid JSON. On a valid detection payload it does not throw, whatever
    fields the records have: a field that a record lacks is read as
    [undefined] and put into the box. *)
Theorem createVisionResponse_failure {host : Host} (jsonAPIResponse : string) :
  (JSON_parse jsonAPIResponse = None ->
   createVisionResponse jsonAPIResponse = Throws SyntaxError) /\
  (forall p : payload,
     JSON_parse jsonAPIResponse = Some (payload_value p) ->
     NoDup (map fst p) ->
     createVisionResponse jsonAPIResponse =
       Returns (VisionResponse.make (boxes_of p)) /\
     forall key r,
       (own_property r "x" = None -> BoundingBox.x (box_of key r) = VUndefined) /\
       (own_property r "y" = None -> BoundingBox.y (box_of key r) = VUndefined) /\
       (own_property r "w" = None -> BoundingBox.w (box_of key r) = VUndefined) /\
       (own_property r "h" = None -> BoundingBox.h (box_of key r) = VUndefined) /\
       (own_property r "score" = None ->
        BoundingBox.score (box_of key r) = VUndefined)).
Proof.
  split.
  - intros Hparse. unfold createVisionResponse. now rewrite Hparse.
  - intros p Hparse Hnd. split; [now apply createVisionResponse_payload|].
    intros key r. unfold box_of, field. simpl.
    repeat split; intros ->; reflexivity.
Qed.

(** ** The pipeline *)

Lemma truthy_false (s : string) : truthy s = false <-> s = EmptyString.
Proof. destruct s; simpl; split; congruence. Qed.

Lemma processed_files_app (before after : list event) :
  processed_files (before ++ after)%list =
  (processed_files before ++ processed_files after)%list.
Proof.
  induction before as [|e before IH]; simpl; [reflexivity|].
  destruct e; simpl; now rewrite IH.
Qed.

Section PipelineFacts.
Context {host : Host} {world : World}.

Lemma recognizeObjectAPIAsync_valid (gcsURI : string) :
  valid_uri gcsURI ->
  recognizeObjectAPIAsync gcsURI =
  match request (api_url gcsURI) credentials with
  | Failed err =>
      Async [http_request (api_url gcsURI) credentials] [log_api_error err]
        (Rejected (Cause err))
  | Replied statusCode body =>
      Async [http_request (api_url gcsURI) credentials]
        [log_api_timing (api_url gcsURI)]
        (if negb (statusCode =? 200)
         then Rejected (Message ("Error: Received  " ++ integer_text statusCode
                                   ++ " from API"))
         else Resolved body)
  end.
Proof.
  intros [Hne Hprefix]. unfold recognizeObjectAPIAsync.
  destruct (truthy gcsURI) eqn:Et; [|apply truthy_false in Et; contradiction].
  now rewrite Hprefix.
Qed.

Lemma recognizeObjectAPIAsync_invalid (gcsURI : string) :
  gcsURI = EmptyString \/ startsWith gcsURI "gs://" = false ->
  recognizeObjectAPIAsync gcsURI =
  Async [] []
    (Rejected (Message (if truthy gcsURI
                        then "Error: gcsURI must start with gs://"
                        else "Error: No gcURI found in sensorMessage"))).
Proof.
  intros [->|Hprefix]; [reflexivity|]. unfold recognizeObjectAPIAsync.
  destruct (truthy gcsURI); [|reflexivity]. now rewrite Hprefix.
Qed.

(** Whatever the inference call and the parser do, [recognizeObjects]
    resolves. *)
Lemma recognizeObjects_resolves (gcsPath : string) :
  exists visionResponse,
    settles (recognizeObjects gcsPath) = Resolved visionResponse.
Proof.
  unfold recognizeObjects, catch_, then_. cbn [settles now later].
  destruct (settles (recognizeObjectAPIAsync gcsPath)) as [response|r].
  - destruct (createVisionResponse response); cbn [settles]; eauto.
  - cbn [settles]. eauto.
Qed.

Lemma inference_fails_empty (gcsPath : string) (kind : error_kind) :
  inference_fails gcsPath kind ->
  exists error,
    settles (recognizeObjects gcsPath) = Resolved VisionResponse.new /\
    later (recognizeObjects gcsPath) =
    (later (recognizeObjectAPIAsync gcsPath) ++ [log_recognize_error error])%list.
Proof.
  intros Hfails. unfold recognizeObjects, catch_, then_. cbn [settles now later].
  destruct Hfails as [Hinvalid|err Hvalid Hreq|statusCode body Hvalid Hreq Hcode
                     |body e Hvalid Hreq Hthrows].
  - rewrite (recognizeObjectAPIAsync_invalid _ Hinvalid). cbn. eauto.
  - rewrite (recognizeObjectAPIAsync_valid _ Hvalid), Hreq. cbn. eauto.
  - rewrite (recognizeObjectAPIAsync_valid _ Hvalid), Hreq.
    replace (statusCode =? 200) with false by (symmetry; now apply Z.eqb_neq).
    cbn. eauto.
  - rewrite (recognizeObjectAPIAsync_valid _ Hvalid), Hreq.
    cbn [Z.eqb Pos.eqb negb settles later now]. rewrite Hthrows. cbn. eauto.
Qed.

Lemma search_labels_returns (labels : list string)
  (visionResponse : VisionResponse.t) :
  search_labels labels visionResponse =
  (map (fun label =>
          log_searching label
            (existsb (label_matches label)
               (VisionResponse.bBoxes visionResponse))) labels,
   Returns tt).
Proof.
  induction labels as [|label rest IH]; simpl; [reflexivity|].
  now rewrite findObject_existsb, IH.
Qed.

Lemma processOneFile_unfold (bucketName fileName : string)
  (visionResponse : VisionResponse.t) :
  settles (recognizeObjects ("gs://" ++ bucketName ++ "/" ++ fileName)) =
    Resolved visionResponse ->
  processOneFile bucketName fileName =
  Async
    (log_processOneFile fileName
     :: now (recognizeObjects ("gs://" ++ bucketName ++ "/" ++ fileName)))
    (later (recognizeObjects ("gs://" ++ bucketName ++ "/" ++ fileName))
     ++ log_vision_response visionResponse
     :: map (fun label =>
               log_searching label
                 (existsb (label_matches label)
                    (VisionResponse.bBoxes visionResponse)))
          ALL_OBJECT_LABELS)%list
    (Resolved tt).
Proof.
  intros Hsettles. unfold processOneFile. rewrite Hsettles.
  now rewrite search_labels_returns.
Qed.

(** [processOneFile] never rejects. *)
Lemma processOneFile_resolves (bucketName fileName : string) :
  settles (processOneFile bucketName fileName) = Resolved tt.
Proof.
  destruct (recognizeObjects_resolves ("gs://" ++ bucketName ++ "/" ++ fileName))
    as [visionResponse Hsettles].
  now rewrite (processOneFile_unfold _ _ _ Hsettles).
Qed.

Lemma processed_files_api (gcsURI : string) :
  processed_files (now (recognizeObjectAPIAsync gcsURI)) = [] /\
  processed_files (later (recognizeObjectAPIAsync gcsURI)) = [].
Proof.
  unfold recognizeObjectAPIAsync.
  destruct (negb (truthy gcsURI)); [now split|].
  destruct (negb (startsWith gcsURI "gs://")); [now split|].
  destruct (request _ _); now split.
Qed.

Lemma processed_files_recognizeObjects (gcsPath : string) :
  processed_files (now (recognizeObjects gcsPath)) = [] /\
  processed_files (later (recognizeObjects gcsPath)) = [].
Proof.
  destruct (processed_files_api gcsPath) as [Hnow Hlater].
  unfold recognizeObjects, catch_, then_. cbn [settles now later].
  destruct (settles (recognizeObjectAPIAsync gcsPath)) as [response|r].
  - destruct (createVisionResponse response); cbn [now later processed_files];
      rewrite ?processed_files_app, Hnow, Hlater; now split.
  - cbn [now later processed_files].
    rewrite ?processed_files_app, Hnow, Hlater; now split.
Qed.

Lemma processed_files_processOneFile (bucketName fileName : string) :
  processed_files (now (processOneFile bucketName fileName)) = [fileName] /\
  processed_files (later (processOneFile bucketName fileName)) = [].
Proof.
  destruct (recognizeObjects_resolves ("gs://" ++ bucketName ++ "/" ++ fileName))
    as [visionResponse Hsettles].
  rewrite (processOneFile_unfold _ _ _ Hsettles). cbn [now later].
  destruct (processed_files_recognizeObjects
              ("gs://" ++ bucketName ++ "/" ++ fileName)) as [Hnow Hlater].
  split.
  - cbn [processed_files]. now rewrite Hnow.
  - rewrite processed_files_app, Hlater. cbn [app processed_files].
    induction ALL_OBJECT_LABELS as [|label rest IH]; simpl; auto.
Qed.

(** Once the counter has reached 2 the callback only counts. *)
Lemma forEach_counts (bucketName : string) (files : list File) :
  forall i turn pending,
    (2 <= i)%nat ->
    fold_left (forEach_callback bucketName) files (i, turn, pending) =
    ((i + length files)%nat, turn, pending).
Proof.
  induction files as [|file files IH]; intros i turn pending Hi; simpl.
  - now rewrite Nat.add_0_r.
  - replace (i <? 2)%nat with false by (symmetry; apply Nat.ltb_ge; lia).
    rewrite IH by lia. do 2 f_equal. lia.
Qed.
End PipelineFacts.

(** C5. For every storage URI that is empty or does not begin with [gs://],
    [recognizeObjectAPIAsync] rejects with its input error message at once:
    no request is issued, neither before the call returns nor later. *)
Theorem recognizeObjectAPIAsync_rejects_invalid {host : Host} {world : World} (gcsURI : string) :
  gcsURI = EmptyString \/ startsWith gcsURI "gs://" = false ->
  now (recognizeObjectAPIAsync gcsURI) = [] /\
  later (recognizeObjectAPIAsync gcsURI) = [] /\
  settles (recognizeObjectAPIAsync gcsURI) =
    Rejected (Message (if truthy gcsURI
                       then "Error: gcsURI must start with gs://"
                       else "Error: No gcURI found in sensorMessage")).
Proof.
  intros Hinvalid. now rewrite (recognizeObjectAPIAsync_invalid _ Hinvalid).
Qed.

(** C6. For every valid storage URI, [recognizeObjectAPIAsync] issues one
    request and settles in exactly one of three ways, decided by the reply:
    resolved with the body exactly when the status is 200; rejected with the
    transport error when there is one; rejected with a message that carries
    the status code when the status is not 200. *)
Theorem recognizeObjectAPIAsync_three_outcomes {host : Host} {world : World} (gcsURI : string) :
  gcsURI <> EmptyString -> startsWith gcsURI "gs://" = true ->
  let answer := request (api_url gcsURI) credentials in
  let settlement := settles (recognizeObjectAPIAsync gcsURI) in
  let success :=
    exists body, answer = Replied 200 body /\ settlement = Resolved body in
  let network_error :=
    exists err, answer = Failed err /\ settlement = Rejected (Cause err) in
  let upstream_error :=
    exists statusCode body,
      answer = Replied statusCode body /\ statusCode <> 200 /\
      settlement = Rejected (Message ("Error: Received  " ++ integer_text statusCode
                                     ++ " from API")) in
  now (recognizeObjectAPIAsync gcsURI) =
    [http_request (api_url gcsURI) credentials] /\
  (forall body, settlement = Resolved body <-> answer = Replied 200 body) /\
  (success \/ network_error \/ upstream_error) /\
  ~ (success /\ network_error) /\
  ~ (success /\ upstream_error) /\
  ~ (network_error /\ upstream_error).
Proof.
  intros Hne Hprefix. cbv zeta.
  rewrite (recognizeObjectAPIAsync_valid gcsURI (conj Hne Hprefix)).
  destruct (request (api_url gcsURI) credentials) as [err|statusCode body];
    cbn [now settles].
  - split; [reflexivity|]. split; [split; discriminate|].
    split; [right; left; eauto|].
    repeat split; intros [A B]; try destruct A as (? & ? & _);
      try destruct B as (? & ? & ? & _); discriminate.
  - destruct (Z.eqb_spec statusCode 200) as [->|Hcode]; cbn [negb].
    + split; [reflexivity|]. split; [intros b; split; congruence|].
      split; [left; eauto|].
      repeat split; intros [A B].
      * destruct B as (? & ? & _); discriminate.
      * destruct B as (? & ? & E & Hc & _). injection E as <- _. congruence.
      * destruct A as (? & ? & _); discriminate.
    + split; [reflexivity|].
      split; [intros b; split; [discriminate | intros [= -> _]; congruence]|].
      split; [right; right; eauto|].
      repeat split; intros [A B].
      * destruct B as (? & ? & _); discriminate.
      * destruct A as (? & E & _). injection E as -> _. congruence.
      * destruct A as (? & ? & _); discriminate.
Qed.

(** C7. Whichever of the four failures the inference of a file meets,
    [recognizeObjects] resolves with the empty response, the same response an
    object without keys parses to; [processOneFile] then resolves, logs that
    empty response and reports every configured label as not found. *)
Theorem processOneFile_swallows_failures {host : Host} {world : World}
  (gcsPath : string) (kind : error_kind) :
  inference_fails gcsPath kind ->
  settles (recognizeObjects gcsPath) = Resolved VisionResponse.new /\
  (forall jsonAPIResponse,
     JSON_parse jsonAPIResponse = Some (VObj []) ->
     createVisionResponse jsonAPIResponse = Returns VisionResponse.new) /\
  (forall bucketName fileName,
     gcsPath = "gs://" ++ bucketName ++ "/" ++ fileName ->
     settles (processOneFile bucketName fileName) = Resolved tt /\
     exists before,
       later (processOneFile bucketName fileName) =
       (before ++ log_vision_response VisionResponse.new
        :: map (fun label => log_searching label false) ALL_OBJECT_LABELS)%list).
Proof.
  intros Hfails.
  destruct (inference_fails_empty _ _ Hfails) as (error & Hsettles & Hlater).
  split; [exact Hsettles|]. split.
  - intros jsonAPIResponse Hparse. unfold createVisionResponse.
    now rewrite Hparse.
  - intros bucketName fileName ->.
    rewrite (processOneFile_unfold _ _ _ Hsettles). cbn [settles later].
    split; [reflexivity|]. eexists. reflexivity.
Qed.

(** C8. When the bucket listing resolves, [processAllFiles] enters
    [processOneFile] for the first listed object only, and for none when the
    listing is empty; the counter still advances once for every listed
    object. *)
Theorem processAllFiles_first_file_only {host : Host} {world : World}
  (bucketName : string) (files : list File) :
  getFiles (process.PROJECT process_env) bucketName = Resolved files ->
  let scan := processAllFiles bucketName in
  processed_files (now scan ++ later scan) = map name (firstn 1 files) /\
  later scan =
    match files with
    | [] => [log_processAllFiles_total 1]
    | file :: _ =>
        (log_processAllFiles_index 1
         :: now (processOneFile bucketName (name file))
         ++ log_processAllFiles_total (1 + length files)
         :: later (processOneFile bucketName (name file)))%list
    end /\
  settles scan = Resolved tt.
Proof.
  intros Hlisting. cbv zeta. unfold processAllFiles. rewrite Hlisting.
  destruct files as [|file files].
  - simpl. auto.
  - cbn [fold_left forEach_callback Nat.ltb Nat.leb].
    rewrite forEach_counts by lia. cbn [now later settles app firstn map length].
    destruct (processed_files_processOneFile bucketName (name file))
      as [Hnow Hlater].
    split; [|split; [|reflexivity]].
    + rewrite !processed_files_app. cbn [app processed_files].
      rewrite !processed_files_app. cbn [app processed_files].
      now rewrite Hnow, Hlater.
    + cbn [app]. reflexivity.
Qed.

(** ** The properties on concrete inputs *)




Ltac distinct_keys :=
  repeat (constructor; [simpl; intuition discriminate|]); constructor.

Example findObject_car :
  findObject (host := Sample.host) "car"
    (VisionResponse.make [box "Car"; box "car_2"; box "Tractor"]) = Returns true
  /\ findObject (host := Sample.host) "tractor"
       (VisionResponse.make [box "Car"]) = Returns false
  /\ findObject (host := Sample.host) "CAR"
       (VisionResponse.make [box "Tractor"; box "race-car"]) = Returns true.
Proof. repeat split; reflexivity. Qed.

Lemma findObject_permutation_witness :
  Permutation [box "Tractor"; box "Car"] [box "Car"; box "Tractor"] /\
  findObject (host := Sample.host) "car"
    (VisionResponse.make [box "Tractor"; box "Car"]) =
  findObject (host := Sample.host) "car"
    (VisionResponse.make [box "Car"; box "Tractor"]).
Proof.
  split; [apply perm_swap|].
  apply (findObject_permutation (host := Sample.host)). apply perm_swap.
Defined.

Lemma findObject_empty_target_witness :
  toLowerCase (Host := Sample.host) EmptyString = EmptyString /\
  findObject (host := Sample.host) EmptyString
    (VisionResponse.make [box "Tractor"]) = Returns true.
Proof.
  split; [reflexivity|].
  apply (findObject_empty_target (host := Sample.host)
           (VisionResponse.make [box "Tractor"])); [reflexivity | discriminate].
Defined.

Lemma createVisionResponse_box_count_witness :
  JSON_parse (Host := Sample.host) crowd_text = Some (payload_value crowd_payload) /\
  NoDup (map fst crowd_payload) /\
  exists response,
    createVisionResponse (host := Sample.host) crowd_text = Returns response /\
    length (VisionResponse.bBoxes response) = 3%nat.
Proof.
  split; [reflexivity|]. split; [distinct_keys|].
  apply (createVisionResponse_box_count (host := Sample.host) crowd_text
           crowd_payload); [reflexivity | distinct_keys].
Defined.

Lemma createVisionResponse_boxes_in_order_witness :
  JSON_parse (Host := Sample.host) crowd_text = Some (payload_value crowd_payload) /\
  NoDup (map fst crowd_payload) /\
  exists response,
    createVisionResponse (host := Sample.host) crowd_text = Returns response /\
    VisionResponse.bBoxes response =
    [box "person";
     BoundingBox.new "person" VUndefined VUndefined VUndefined VUndefined VUndefined;
     BoundingBox.new "car" four three two one nine_tenths].
Proof.
  split; [reflexivity|]. split; [distinct_keys|].
  apply (createVisionResponse_boxes_in_order (host := Sample.host) crowd_text
           crowd_payload); [reflexivity | distinct_keys].
Defined.

(** C4, as the claim has it, fails: this text is valid JSON, its one record
    lacks [y], [w], [h] and [score], and [createVisionResponse] returns. *)
Lemma createVisionResponse_missing_field_returns :
  JSON_parse (Host := Sample.host) partial_text = Some (payload_value partial_payload) /\
  own_property [("x", one)] "y" = None /\
  createVisionResponse (host := Sample.host) partial_text =
    Returns (VisionResponse.make
               [BoundingBox.new "car" one VUndefined VUndefined VUndefined
                  VUndefined]) /\
  forall e, createVisionResponse (host := Sample.host) partial_text <> Throws e.
Proof.
  split; [reflexivity|]. split; [reflexivity|]. split; [reflexivity|].
  intros e. vm_compute. discriminate.
Qed.

Lemma createVisionResponse_failure_witness :
  (JSON_parse (Host := Sample.host) "<html>" = None /\
   createVisionResponse (host := Sample.host) "<html>" = Throws SyntaxError) /\
  (JSON_parse (Host := Sample.host) partial_text =
     Some (payload_value partial_payload) /\
   NoDup (map fst partial_payload) /\
   createVisionResponse (host := Sample.host) partial_text =
     Returns (VisionResponse.make (boxes_of partial_payload))).
Proof.
  split.
  - split; [reflexivity|].
    apply (proj1 (createVisionResponse_failure (host := Sample.host) "<html>")).
    reflexivity.
  - split; [reflexivity|]. split; [distinct_keys|].
    apply (proj2 (createVisionResponse_failure (host := Sample.host) partial_text)
             partial_payload); [reflexivity | distinct_keys].
Defined.

Lemma recognizeObjectAPIAsync_rejects_invalid_witness :
  (startsWith "s3://bucket/file" "gs://" = false /\
   now (recognizeObjectAPIAsync (host := Sample.host) (world := detecting)
          "s3://bucket/file") = [] /\
   later (recognizeObjectAPIAsync (host := Sample.host) (world := detecting)
            "s3://bucket/file") = [] /\
   settles (recognizeObjectAPIAsync (host := Sample.host) (world := detecting)
              "s3://bucket/file") =
     Rejected (Message "Error: gcsURI must start with gs://")) /\
  settles (recognizeObjectAPIAsync (host := Sample.host) (world := detecting)
             EmptyString) =
    Rejected (Message "Error: No gcURI found in sensorMessage").
Proof.
  split.
  - split; [reflexivity|].
    apply (recognizeObjectAPIAsync_rejects_invalid (host := Sample.host)
             (world := detecting) "s3://bucket/file").
    right. reflexivity.
  - apply (recognizeObjectAPIAsync_rejects_invalid (host := Sample.host)
             (world := detecting) EmptyString).
    left. reflexivity.
Defined.

Lemma recognizeObjectAPIAsync_three_outcomes_witness :
  file_uri <> EmptyString /\ startsWith file_uri "gs://" = true /\
  now (recognizeObjectAPIAsync (host := Sample.host) (world := detecting) file_uri) =
    [http_request file_url {| user := "derby"; pass := "secret" |}] /\
  settles (recognizeObjectAPIAsync (host := Sample.host) (world := detecting)
             file_uri) = Resolved car_text.
Proof.
  split; [discriminate|]. split; [reflexivity|].
  pose proof (recognizeObjectAPIAsync_three_outcomes (host := Sample.host)
                (world := detecting) file_uri) as Houtcomes.
  cbv zeta in Houtcomes.
  destruct Houtcomes as (Hnow & Hsuccess & _); [discriminate | reflexivity |].
  split; [exact Hnow|]. apply Hsuccess. reflexivity.
Defined.

Lemma processOneFile_swallows_failures_witness :
  inference_fails (host := Sample.host) (world := failing) file_uri UpstreamError /\
  settles (recognizeObjects (host := Sample.host) (world := failing) file_uri) =
    Resolved VisionResponse.new /\
  settles (processOneFile (host := Sample.host) (world := failing) "b" "f.jpg") =
    Resolved tt.
Proof.
  assert (Hfails : inference_fails (host := Sample.host) (world := failing)
                     file_uri UpstreamError).
  { apply (fails_upstream file_uri 500 "Internal Server Error").
    - split; [discriminate | reflexivity].
    - reflexivity.
    - discriminate. }
  pose proof (processOneFile_swallows_failures (host := Sample.host)
                (world := failing) file_uri UpstreamError Hfails)
    as (Hempty & _ & Hfile).
  split; [exact Hfails|]. split; [exact Hempty|].
  apply (Hfile "b" "f.jpg"). reflexivity.
Defined.

Lemma processAllFiles_first_file_only_witness :
  getFiles (World := detecting) "cloud-derby" "b" =
    Resolved [Build_File "f.jpg"; Build_File "g.jpg"; Build_File "h.jpg"] /\
  processed_files
    (now (processAllFiles (host := Sample.host) (world := detecting) "b")
     ++ later (processAllFiles (host := Sample.host) (world := detecting) "b"))%list
  = ["f.jpg"].
Proof.
  split; [reflexivity|].
  apply (processAllFiles_first_file_only (host := Sample.host) (world := detecting)
           "b" [Build_File "f.jpg"; Build_File "g.jpg"; Build_File "h.jpg"]).
  reflexivity.
Defined.

(** The run of the scanner on a bucket of three files whose first image shows
    a car: the request leaves in the turn that lists the bucket, the total is
    logged before the reply arrives, and the labels are searched last. *)
Example processAllFiles_run :
  processAllFiles (host := Sample.host) (world := detecting) "b" =
  Async
    [storage_getFiles "cloud-derby" "b"]
    [log_processAllFiles_index 1;
     log_processOneFile "f.jpg";
     log_recognizeObjects file_uri;
     http_request file_url {| user := "derby"; pass := "secret" |};
     log_processAllFiles_total 4;
     log_api_timing file_url;
     log_vision_response (VisionResponse.make [box "car"]);
     log_searching "car" true;
     log_searching "pedestrian" false]
    (Resolved tt).
Proof. reflexivity. Qed.

(** The same run when the endpoint cannot be reached, and when it answers
    with something that is not JSON. *)
Example processOneFile_unreachable :
  later (processOneFile (host := Sample.host) (world := unreachable) "b" "f.jpg") =
  [log_api_error "ECONNREFUSED";
   log_recognize_error (Cause "ECONNREFUSED");
   log_vision_response VisionResponse.new;
   log_searching "car" false;
   log_searching "pedestrian" false].
Proof. reflexivity. Qed.

Example processOneFile_garbled :
  later (processOneFile (host := Sample.host) (world := garbled) "b" "f.jpg") =
  [log_api_timing file_url;
   log_recognize_error (Raised SyntaxError);
   log_vision_response VisionResponse.new;
   log_searching "car" false;
   log_searching "pedestrian" false].
Proof. reflexivity. Qed.

(** * Further properties *)

(** ** The matcher *)

Lemma append_assoc (a b c : string) : (a ++ b) ++ c = a ++ (b ++ c).
Proof. induction a as [|x a IH]; simpl; [reflexivity | now rewrite IH]. Qed.

Lemma append_empty_r (a : string) : a ++ EmptyString = a.
Proof. induction a as [|x a IH]; simpl; [reflexivity | now rewrite IH]. Qed.

Lemma contains_refl (s : string) : contains s s.
Proof. exists EmptyString, EmptyString. simpl. now rewrite append_empty_r. Qed.

Lemma contains_trans (s t u : string) :
  contains s t -> contains t u -> contains s u.
Proof.
  intros (b1 & a1 & ->) (b2 & a2 & ->).
  exists (b1 ++ b2), (a2 ++ a1). now rewrite !append_assoc.
Qed.

Section MatcherMore.
Context {host : Host}.

Lemma findObject_true_contains (objectType : string)
  (visionResponse : VisionResponse.t) :
  findObject objectType visionResponse = Returns true <->
  exists bBox,
    In bBox (VisionResponse.bBoxes visionResponse) /\
    contains (toLocaleLowerCase (BoundingBox.label bBox)) (toLowerCase objectType).
Proof.
  rewrite findObject_existsb. split.
  - intros [= E]. apply existsb_exists in E as (bBox & Hin & Hm).
    exists bBox. split; [exact Hin | now apply label_matches_contains].
  - intros (bBox & Hin & Hc). f_equal. apply existsb_exists.
    exists bBox. split; [exact Hin | now apply label_matches_contains].
Qed.
End MatcherMore.

(** X1. Adding a box to a response can only turn the answer of [findObject]
    from false to true: after [addBox] the target is found exactly when it was
    found before or the new box's label contains it. *)
Theorem findObject_addBox {host : Host} (objectType : string)
  (visionResponse : VisionResponse.t) (bBox : BoundingBox.t) :
  findObject objectType (VisionResponse.addBox visionResponse bBox) = Returns true
  <->
  findObject objectType visionResponse = Returns true \/
  contains (toLocaleLowerCase (BoundingBox.label bBox)) (toLowerCase objectType).
Proof.
  rewrite !findObject_true_contains. unfold VisionResponse.addBox. simpl. split.
  - intros (b & Hin & Hc). apply in_app_or in Hin as [Hin|[<-|[]]].
    + left. eauto.
    + right. exact Hc.
  - intros [(b & Hin & Hc)|Hc].
    + exists b. split; [apply in_or_app; now left | exact Hc].
    + exists bBox. split; [apply in_or_app; right; now left | exact Hc].
Qed.

(** X2. A box is found under its own label whenever the two case mappings the
    test uses agree on that label. *)
Theorem findObject_own_label {host : Host}
  (visionResponse : VisionResponse.t) (bBox : BoundingBox.t) :
  toLocaleLowerCase (BoundingBox.label bBox) = toLowerCase (BoundingBox.label bBox) ->
  In bBox (VisionResponse.bBoxes visionResponse) ->
  findObject (BoundingBox.label bBox) visionResponse = Returns true.
Proof.
  intros Hsame Hin. apply findObject_true_contains. exists bBox.
  split; [exact Hin|]. rewrite Hsame. apply contains_refl.
Qed.

(** X3. A target whose lower-cased form occurs inside the lower-cased form of
    another target is found in every response in which the other is found. *)
Theorem findObject_shorter_target {host : Host} (longer shorter : string)
  (visionResponse : VisionResponse.t) :
  contains (toLowerCase longer) (toLowerCase shorter) ->
  findObject longer visionResponse = Returns true ->
  findObject shorter visionResponse = Returns true.
Proof.
  rewrite !findObject_true_contains. intros Hsub (bBox & Hin & Hc).
  exists bBox. split; [exact Hin|]. eapply contains_trans; eauto.
Qed.


(** ** The parser on objects of any shape *)

Lemma get_object (properties : list (string * value)) (key : string) (v : value) :
  NoDup (map fst properties) -> In (key, v) properties ->
  get (VObj properties) key = Returns v.
Proof.
  intros Hnd Hin. unfold get. now rewrite (own_property_NoDup _ _ _ Hnd Hin).
Qed.

Lemma string_get_some (s : string) (i : nat) :
  (i < String.length s)%nat -> exists c, String.get i s = Some c.
Proof.
  revert i; induction s as [|c s IH]; intros i Hi; simpl in Hi; [lia|].
  destruct i as [|i]; simpl; [eauto | apply IH; lia].
Qed.

Lemma get_index_string (s : string) (i : nat) :
  (i < String.length s)%nat ->
  exists c, get (VStr s) (index_key i) = Returns (VStr (String c EmptyString)).
Proof.
  intros Hi. unfold get, index_key. rewrite canonical_index_text, Nat2N.id.
  replace (N.of_nat i <? N.of_nat (String.length s))%N with true
    by (symmetry; apply N.ltb_lt; lia).
  destruct (string_get_some s i Hi) as [c ->]. eauto.
Qed.

Lemma element_box_readable (key : string) (element : value) :
  element_box key element =
  if readable element then Returns (box_of key (fields_of element))
  else Throws TypeError.
Proof.
  unfold element_box.
  destruct element as [| |b|d|s|elements|properties]; try reflexivity.
  cbn [readable fields_of]. now rewrite !get_field.
Qed.

Lemma element_boxes_readable (key : string) (elements : list value) :
  element_boxes key elements =
  if forallb readable elements
  then Returns (map (fun element => box_of key (fields_of element)) elements)
  else Throws TypeError.
Proof.
  induction elements as [|element rest IH]; [reflexivity|].
  cbn [element_boxes forallb map]. rewrite element_box_readable, IH.
  destruct (readable element); [|reflexivity].
  now destruct (forallb readable rest).
Qed.

Section ParserMore.
Context {host : Host}.

Lemma box_at_element (objResponse found : value) (key : string) (i : nat)
  (element : value) :
  get objResponse key = Returns found ->
  get found (index_key i) = Returns element ->
  box_at objResponse key i = element_box key element.
Proof.
  intros Hget Helement. unfold box_at, element_box.
  rewrite Hget. cbn [bind]. rewrite Helement. reflexivity.
Qed.

Lemma records_loop_elements (objResponse : value) (key : string)
  (elements : list value) :
  get objResponse key = Returns (VArr elements) ->
  forall n i response,
    (i + n = length elements)%nat ->
    records_loop (S n) objResponse key i response =
    Some (let* bBoxes := element_boxes key (skipn i elements) in
          Returns (VisionResponse.make
                     (VisionResponse.bBoxes response ++ bBoxes)%list)).
Proof.
  intros Hget. induction n as [|n IH]; intros i response Hi;
    rewrite records_loop_step, Hget; cbn [bind below_length].
  - replace (i <? length elements)%nat with false
      by (symmetry; apply Nat.ltb_ge; lia).
    rewrite skipn_all2 by lia. cbn. rewrite app_nil_r. now destruct response.
  - replace (i <? length elements)%nat with true
      by (symmetry; apply Nat.ltb_lt; lia).
    destruct (nth_error elements i) as [element|] eqn:Hnth;
      [|apply nth_error_None in Hnth; lia].
    assert (Hskip : skipn i elements = element :: skipn (S i) elements).
    { clear - Hnth. revert i Hnth.
      induction elements as [|e rest IHr]; intros [|i] Hnth; simpl in *;
        try discriminate.
      - now injection Hnth as ->.
      - now apply IHr. }
    rewrite (box_at_element _ _ _ _ element Hget)
      by (now rewrite get_index_array, Hnth).
    rewrite Hskip. cbn [element_boxes].
    destruct (element_box key element) as [bBox|e]; [|reflexivity].
    cbv beta iota. rewrite IH by lia. cbn [bind VisionResponse.addBox VisionResponse.bBoxes].
    destruct (element_boxes key (skipn (S i) elements)); [|reflexivity].
    cbn [bind]. now rewrite <- app_assoc.
Qed.

Lemma records_loop_characters (objResponse : value) (key s : string) :
  get objResponse key = Returns (VStr s) ->
  forall n i response,
    (i + n = String.length s)%nat ->
    records_loop (S n) objResponse key i response =
    Some (Returns (VisionResponse.make
                     (VisionResponse.bBoxes response ++ repeat (blank key) n)%list)).
Proof.
  intros Hget. induction n as [|n IH]; intros i response Hi;
    rewrite records_loop_step, Hget; cbn [bind below_length].
  - replace (i <? String.length s)%nat with false
      by (symmetry; apply Nat.ltb_ge; lia).
    cbn. rewrite app_nil_r. now destruct response.
  - replace (i <? String.length s)%nat with true
      by (symmetry; apply Nat.ltb_lt; lia).
    destruct (get_index_string s i) as [c Hc]; [lia|].
    rewrite (box_at_element _ _ _ _ _ Hget Hc).
    change (element_box key (VStr (String c EmptyString)))
      with (Returns (blank key)).
    cbv beta iota. rewrite IH by lia. cbn [VisionResponse.addBox VisionResponse.bBoxes repeat].
    now rewrite <- app_assoc.
Qed.

(** For a value that is not array-like the inner loop adds its
    [contribution]. *)
Lemma add_records_contribution (objResponse found : value) (key : string)
  (response : VisionResponse.t) :
  get objResponse key = Returns found ->
  array_like found = false ->
  add_records objResponse key response =
  let* bBoxes := contribution key found in
  Returns (VisionResponse.make (VisionResponse.bBoxes response ++ bBoxes)%list).
Proof.
  intros Hget Hlike. unfold add_records, records_fuel. rewrite Hget.
  destruct found as [| |b|d|s|elements|properties]; cbn [size contribution].
  - rewrite records_loop_step, Hget. reflexivity.
  - rewrite records_loop_step, Hget. reflexivity.
  - rewrite records_loop_step, Hget. cbn. rewrite app_nil_r. now destruct response.
  - rewrite records_loop_step, Hget. cbn. rewrite app_nil_r. now destruct response.
  - now rewrite (records_loop_characters _ _ _ Hget) by lia.
  - now rewrite (records_loop_elements _ _ _ Hget) by lia.
  - rewrite records_loop_step, Hget. cbn [bind below_length].
    unfold array_like in Hlike.
    destruct (own_property properties "length"); [discriminate|].
    cbn. rewrite app_nil_r. now destruct response.
Qed.

Lemma keys_loop_contributions (properties rest : list (string * value))
  (response : VisionResponse.t) :
  NoDup (map fst properties) -> incl rest properties ->
  forallb (fun property => negb (array_like (snd property))) rest = true ->
  keys_loop (VObj properties) (map fst rest) response =
  let* bBoxes := contributions rest in
  Returns (VisionResponse.make (VisionResponse.bBoxes response ++ bBoxes)%list).
Proof.
  intros Hnd. revert response.
  induction rest as [|[key found] rest IH]; intros response Hincl Hlike.
  - cbn. rewrite app_nil_r. now destruct response.
  - cbn [forallb snd] in Hlike. apply andb_prop in Hlike as [Hfound Hrest].
    apply negb_true_iff in Hfound.
    cbn [map fst keys_loop contributions].
    rewrite (add_records_contribution _ found)
      by (auto; apply get_object; auto; apply Hincl; now left).
    destruct (contribution key found) as [bBoxes|e]; [|reflexivity].
    cbn [bind]. rewrite IH by (auto; intros e He; apply Hincl; now right).
    destruct (contributions rest); [|reflexivity].
    cbn [bind VisionResponse.bBoxes]. now rewrite app_assoc.
Qed.

Lemma createVisionResponse_contributions (jsonAPIResponse : string)
  (properties : list (string * value)) :
  JSON_parse jsonAPIResponse = Some (VObj properties) ->
  NoDup (map fst properties) ->
  forallb (fun property => negb (array_like (snd property))) properties = true ->
  createVisionResponse jsonAPIResponse =
  let* bBoxes := contributions properties in
  Returns (VisionResponse.make bBoxes).
Proof.
  intros Hparse Hnd Hlike. unfold createVisionResponse. rewrite Hparse.
  cbn [for_in_keys].
  now rewrite keys_loop_contributions by (auto using incl_refl).
Qed.

(** Every box the inner loop adds is labelled with the key. *)
Lemma records_loop_labels (objResponse : value) (key : string) :
  forall fuel i response result,
    records_loop fuel objResponse key i response = Some (Returns result) ->
    forall bBox, In bBox (VisionResponse.bBoxes result) ->
      In bBox (VisionResponse.bBoxes response) \/ BoundingBox.label bBox = key.
Proof.
  induction fuel as [|fuel IH]; intros i response result Hloop bBox Hin;
    [discriminate|].
  rewrite records_loop_step in Hloop.
  destruct (let* found := get objResponse key in below_length i found)
    as [[|]|]; try discriminate.
  - destruct (box_at objResponse key i) as [added|] eqn:Hbox; [|discriminate].
    destruct (IH _ _ _ Hloop bBox Hin) as [Hold|Hlabel]; [|now right].
    cbn in Hold. apply in_app_or in Hold as [Hold|[<-|[]]]; [now left|].
    right. unfold box_at in Hbox.
    repeat match type of Hbox with
           | bind ?m _ = _ => destruct m; cbn [bind] in Hbox; [|discriminate]
           end.
    now injection Hbox as <-.
  - injection Hloop as <-. now left.
Qed.

Lemma keys_loop_labels (objResponse : value) :
  forall keys response result,
    keys_loop objResponse keys response = Returns result ->
    forall bBox, In bBox (VisionResponse.bBoxes result) ->
      In bBox (VisionResponse.bBoxes response) \/
      In (BoundingBox.label bBox) keys.
Proof.
  induction keys as [|key keys IH]; intros response result Hloop bBox Hin.
  - injection Hloop as <-. now left.
  - cbn [keys_loop] in Hloop.
    destruct (add_records objResponse key response) as [response'|] eqn:Hadd;
      [|discriminate].
    cbn [bind] in Hloop.
    destruct (IH _ _ Hloop bBox Hin) as [Hold|Hkey]; [|right; now right].
    unfold add_records in Hadd.
    destruct (records_loop _ _ _ _ _) as [[r|]|] eqn:Hrec; try discriminate.
    injection Hadd as ->.
    destruct (records_loop_labels _ _ _ _ _ _ Hrec bBox Hold) as [H1|H2].
    + now left.
    + right. left. now symmetry.
Qed.
End ParserMore.

Lemma contributions_arrays (p : list (string * list value)) :
  contributions (map (fun entry => (fst entry, VArr (snd entry))) p) =
  if forallb (fun entry => forallb readable (snd entry)) p
  then Returns (flat_map (fun entry =>
                            map (fun element =>
                                   box_of (fst entry) (fields_of element))
                                (snd entry)) p)
  else Throws TypeError.
Proof.
  induction p as [|[key elements] p IH]; [reflexivity|].
  cbn [map fst snd contributions contribution forallb flat_map].
  rewrite element_boxes_readable, IH.
  destruct (forallb readable elements); [|reflexivity].
  now destruct (forallb _ p).
Qed.

Lemma contributions_no_sequences (properties : list (string * value)) :
  Forall (fun property =>
            match snd property with
            | VNull | VBool _ | VNum _ | VObj _ => True
            | _ => False
            end) properties ->
  contributions properties =
  if forallb (fun property => readable (snd property)) properties
  then Returns []
  else Throws TypeError.
Proof.
  induction 1 as [|[key found] rest Hfound Hrest IH]; [reflexivity|].
  cbn [contributions forallb snd]. cbn [snd] in Hfound. rewrite IH.
  destruct found; try contradiction; try reflexivity;
    cbn [contribution readable bind andb]; now destruct (forallb _ rest).
Qed.

(** X5. For an object whose keys hold arrays, whatever the elements are:
    [createVisionResponse] throws a TypeError if some element anywhere is
    [null], and otherwise returns one box per element, in order, where an
    element that is not an object gives a box whose five fields are all
    [undefined]. *)
Theorem createVisionResponse_arrays {host : Host} (jsonAPIResponse : string)
  (p : list (string * list value)) :
  JSON_parse jsonAPIResponse = Some (arrays_value p) ->
  NoDup (map fst p) ->
  createVisionResponse jsonAPIResponse =
  if forallb (fun entry => forallb readable (snd entry)) p
  then Returns (VisionResponse.make
                  (flat_map (fun entry =>
                               map (fun element =>
                                      box_of (fst entry) (fields_of element))
                                   (snd entry)) p))
  else Throws TypeError.
Proof.
  intros Hparse Hnd.
  rewrite (createVisionResponse_contributions _ _ Hparse).
  - rewrite contributions_arrays. now destruct (forallb _ p).
  - now rewrite map_map.
  - clear. induction p as [|[key elements] p IH]; [reflexivity|]. exact IH.
Qed.

(** X6. For an object whose keys hold only booleans, numbers, [null] or
    objects without a [length] of their own, [createVisionResponse] finds no
    box: it throws a TypeError if some key holds [null], and returns the empty
    response otherwise. *)
Theorem createVisionResponse_no_sequences {host : Host} (jsonAPIResponse : string)
  (properties : list (string * value)) :
  JSON_parse jsonAPIResponse = Some (VObj properties) ->
  NoDup (map fst properties) ->
  Forall (fun property =>
            match snd property with
            | VNull | VBool _ | VNum _ => True
            | VObj fields => own_property fields "length" = None
            | _ => False
            end) properties ->
  createVisionResponse jsonAPIResponse =
  if forallb (fun property => readable (snd property)) properties
  then Returns VisionResponse.new
  else Throws TypeError.
Proof.
  intros Hparse Hnd Hshape.
  rewrite (createVisionResponse_contributions _ _ Hparse Hnd).
  - rewrite contributions_no_sequences.
    + now destruct (forallb _ properties).
    + eapply Forall_impl; [|exact Hshape]. intros [key found]. cbn [snd].
      now destruct found.
  - clear Hparse Hnd.
    induction Hshape as [|[key found] rest Hfound Hrest IH]; [reflexivity|].
    cbn [forallb snd]. cbn [snd] in Hfound. rewrite IH, andb_true_r.
    destruct found; try contradiction; try reflexivity.
    cbn [array_like]. now rewrite Hfound.
Qed.

(** X7. Whatever [JSON.parse] returns, a response that [createVisionResponse]
    returns only holds boxes labelled with keys that the [for]-[in] loop
    visits in the parsed value. *)
Theorem createVisionResponse_labels_are_keys {host : Host}
  (jsonAPIResponse : string) (objResponse : value) (response : VisionResponse.t) :
  JSON_parse jsonAPIResponse = Some objResponse ->
  createVisionResponse jsonAPIResponse = Returns response ->
  forall bBox, In bBox (VisionResponse.bBoxes response) ->
    In (BoundingBox.label bBox) (for_in_keys objResponse).
Proof.
  intros Hparse Hreturns bBox Hin. unfold createVisionResponse in Hreturns.
  rewrite Hparse in Hreturns.
  destruct (keys_loop_labels _ _ _ _ Hreturns bBox Hin) as [[]|Hkey].
  exact Hkey.
Qed.

(** X8. For an object whose keys hold strings, [createVisionResponse] returns
    one box per character of each string, labelled with the key and with all
    five fields [undefined]. *)
Theorem createVisionResponse_strings {host : Host} (jsonAPIResponse : string)
  (p : list (string * string)) :
  JSON_parse jsonAPIResponse =
    Some (VObj (map (fun entry => (fst entry, VStr (snd entry))) p)) ->
  NoDup (map fst p) ->
  createVisionResponse jsonAPIResponse =
  Returns (VisionResponse.make
             (flat_map (fun entry =>
                          repeat (blank (fst entry)) (String.length (snd entry)))
                       p)).
Proof.
  intros Hparse Hnd.
  rewrite (createVisionResponse_contributions _ _ Hparse).
  - replace (contributions (map (fun entry => (fst entry, VStr (snd entry))) p))
      with (Returns (A := list BoundingBox.t)
              (flat_map (fun entry =>
                           repeat (blank (fst entry)) (String.length (snd entry)))
                        p)); [reflexivity|].
    clear. induction p as [|[key s] p IH]; [reflexivity|].
    cbn [map fst snd contributions contribution flat_map]. now rewrite <- IH.
  - now rewrite map_map.
  - clear. induction p as [|[key s] p IH]; [reflexivity|]. exact IH.
Qed.

(** ** The pipeline, end to end *)

Lemma requests_app (before after : list event) :
  requests (before ++ after)%list = (requests before ++ requests after)%list.
Proof.
  induction before as [|e before IH]; simpl; [reflexivity|].
  destruct e; simpl; now rewrite IH.
Qed.

Lemma reported_errors_app (before after : list event) :
  reported_errors (before ++ after)%list =
  (reported_errors before ++ reported_errors after)%list.
Proof.
  induction before as [|e before IH]; simpl; [reflexivity|].
  destruct e; simpl; now rewrite IH.
Qed.

Lemma effects_app (before after : list output) :
  effects (before ++ after)%list = (effects before ++ effects after)%list.
Proof.
  induction before as [|o before IH]; simpl; [reflexivity|].
  destruct o; simpl; now rewrite IH.
Qed.

Lemma effects_map (trace : list event) : effects (map effect trace) = trace.
Proof. induction trace as [|e trace IH]; simpl; [reflexivity | now rewrite IH]. Qed.

Lemma requests_searching (found : string -> bool) (labels : list string) :
  requests (map (fun label => log_searching label (found label)) labels) = [].
Proof. induction labels as [|label rest IH]; simpl; auto. Qed.

Lemma append_length (a b : string) :
  String.length (a ++ b) = (String.length a + String.length b)%nat.
Proof. induction a as [|c a IH]; simpl; [reflexivity | now rewrite IH]. Qed.

Lemma append_cancel_r (a b s : string) : a ++ s = b ++ s -> a = b.
Proof.
  revert b; induction a as [|c a IH]; intros [|d b] E; simpl in E.
  - reflexivity.
  - apply (f_equal String.length) in E. simpl in E. rewrite append_length in E. lia.
  - apply (f_equal String.length) in E. simpl in E. rewrite append_length in E. lia.
  - injection E as -> E. f_equal. now apply IH.
Qed.

Lemma integer_text_injective (a b : Z) : integer_text a = integer_text b -> a = b.
Proof.
  unfold integer_text. intros E. apply DecimalZ.to_int_inj.
  assert (Hnonnil : forall z, Z.to_int z <> Pos Nil /\ Z.to_int z <> Neg Nil).
  { intros [|p|p]; simpl; split; try discriminate; intros [= E'];
      now apply DecimalPos.Unsigned.to_uint_nonnil in E'. }
  assert (Some (Z.to_int a) = Some (Z.to_int b)) as [= ->]; [|reflexivity].
  rewrite <- (NilZero.isi (Z.to_int a)), <- (NilZero.isi (Z.to_int b)), E;
    try apply Hnonnil. reflexivity.
Qed.

Section PipelineMore.
Context {host : Host} {world : World}.

Lemma built_uri_valid (bucketName fileName : string) :
  valid_uri ("gs://" ++ bucketName ++ "/" ++ fileName).
Proof.
  split; [discriminate|]. apply prefix_app.
  exists (bucketName ++ "/" ++ fileName). reflexivity.
Qed.

Lemma now_recognizeObjects (gcsPath : string) :
  now (recognizeObjects gcsPath) =
  log_recognizeObjects gcsPath :: now (recognizeObjectAPIAsync gcsPath).
Proof.
  unfold recognizeObjects, catch_, then_. cbn [settles now later].
  destruct (settles (recognizeObjectAPIAsync gcsPath)) as [response|r];
    [destruct (createVisionResponse response)|]; reflexivity.
Qed.

Lemma requests_later_api (gcsURI : string) :
  requests (later (recognizeObjectAPIAsync gcsURI)) = [] /\
  reported_errors (later (recognizeObjectAPIAsync gcsURI)) = [].
Proof.
  unfold recognizeObjectAPIAsync.
  destruct (negb (truthy gcsURI)); [now split|].
  destruct (negb (startsWith gcsURI "gs://")); [now split|].
  destruct (request _ _); now split.
Qed.

Lemma requests_later_recognizeObjects (gcsPath : string) :
  requests (later (recognizeObjects gcsPath)) = [].
Proof.
  destruct (requests_later_api gcsPath) as [Hreq _].
  unfold recognizeObjects, catch_, then_. cbn [settles now later].
  destruct (settles (recognizeObjectAPIAsync gcsPath)) as [response|r];
    [destruct (createVisionResponse response)|]; cbn [later];
    rewrite ?requests_app, Hreq; reflexivity.
Qed.

Lemma processOneFile_now (bucketName fileName : string) :
  now (processOneFile bucketName fileName) =
  [log_processOneFile fileName;
   log_recognizeObjects ("gs://" ++ bucketName ++ "/" ++ fileName);
   http_request (api_url ("gs://" ++ bucketName ++ "/" ++ fileName)) credentials].
Proof.
  destruct (recognizeObjects_resolves ("gs://" ++ bucketName ++ "/" ++ fileName))
    as [visionResponse Hsettles].
  rewrite (processOneFile_unfold _ _ _ Hsettles). cbn [now].
  rewrite now_recognizeObjects.
  rewrite (recognizeObjectAPIAsync_valid _ (built_uri_valid bucketName fileName)).
  now destruct (request _ _).
Qed.

Lemma processOneFile_later_requests (bucketName fileName : string) :
  requests (later (processOneFile bucketName fileName)) = [].
Proof.
  destruct (recognizeObjects_resolves ("gs://" ++ bucketName ++ "/" ++ fileName))
    as [visionResponse Hsettles].
  rewrite (processOneFile_unfold _ _ _ Hsettles). cbn [later].
  rewrite requests_app, requests_later_recognizeObjects. cbn [Datatypes.app requests].
  apply (requests_searching
           (fun label => existsb (label_matches label)
                           (VisionResponse.bBoxes visionResponse))).
Qed.

Lemma processAllFiles_listed (bucketName : string) (files : list File) :
  getFiles (process.PROJECT process_env) bucketName = Resolved files ->
  processAllFiles bucketName =
  Async [storage_getFiles (process.PROJECT process_env) bucketName]
    match files with
    | [] => [log_processAllFiles_total 1]
    | file :: _ =>
        (log_processAllFiles_index 1
         :: now (processOneFile bucketName (name file))
         ++ log_processAllFiles_total (1 + length files)
         :: later (processOneFile bucketName (name file)))%list
    end
    (Resolved tt).
Proof.
  intros Hlisting. unfold processAllFiles. rewrite Hlisting.
  destruct files as [|file files]; [reflexivity|].
  cbn [fold_left forEach_callback Nat.ltb Nat.leb].
  rewrite forEach_counts by lia. reflexivity.
Qed.
End PipelineMore.

(** X9. Whatever the bucket and file names are, even empty ones,
    [processOneFile] issues exactly one request before it suspends, for the
    URI [gs://bucket/file], and none afterwards: the input checks of the
    inference client never reject a URI built here. *)
Theorem processOneFile_one_request {host : Host} {world : World}
  (bucketName fileName : string) :
  requests (now (processOneFile bucketName fileName)) =
    [(api_url ("gs://" ++ bucketName ++ "/" ++ fileName), credentials)] /\
  requests (later (processOneFile bucketName fileName)) = [] /\
  forall kind,
    inference_fails ("gs://" ++ bucketName ++ "/" ++ fileName) kind ->
    kind <> InvalidInputError.
Proof.
  split; [now rewrite processOneFile_now|].
  split; [apply processOneFile_later_requests|].
  intros kind Hfails ->.
  destruct (built_uri_valid bucketName fileName) as [Hne Hprefix].
  inversion Hfails as [[Hempty|Hnot]| | |]; congruence.
Qed.

(** X10. When the listing resolves, the whole scan issues at most one
    request: none for an empty bucket, and otherwise the one for the first
    listed file. *)
Theorem processAllFiles_requests {host : Host} {world : World}
  (bucketName : string) (files : list File) :
  getFiles (process.PROJECT process_env) bucketName = Resolved files ->
  requests (now (processAllFiles bucketName) ++ later (processAllFiles bucketName))
  = match files with
    | [] => []
    | file :: _ =>
        [(api_url ("gs://" ++ bucketName ++ "/" ++ name file), credentials)]
    end.
Proof.
  intros Hlisting. rewrite (processAllFiles_listed _ _ Hlisting). cbn [now later].
  destruct files as [|file files]; [reflexivity|].
  rewrite processOneFile_now. cbn [Datatypes.app requests].
  now rewrite processOneFile_later_requests.
Qed.


Lemma occurrences_app (c : ascii) (a b : string) :
  occurrences c (a ++ b) = (occurrences c a + occurrences c b)%nat.
Proof. induction a as [|d a IH]; simpl; [reflexivity | rewrite IH; lia]. Qed.

Lemma split_from_nonempty (separator : ascii) (s piece : string) :
  split_from separator piece s <> [].
Proof.
  revert piece; induction s as [|c s IH]; intros piece; cbn [split_from].
  - discriminate.
  - destruct (Ascii.eqb c separator); [discriminate | apply IH].
Qed.

Lemma split_from_join (separator : ascii) (s piece : string) :
  join separator (split_from separator piece s) = piece ++ s.
Proof.
  revert piece; induction s as [|c s IH]; intros piece; cbn [split_from].
  - cbn. now rewrite append_empty_r.
  - destruct (Ascii.eqb_spec c separator) as [->|ne].
    + specialize (IH EmptyString).
      pose proof (split_from_nonempty separator s EmptyString) as Hne.
      destruct (split_from separator EmptyString s) as [|first more];
        [congruence|].
      cbn [join]. cbn [join] in IH. now rewrite IH.
    + rewrite IH. now rewrite append_assoc.
Qed.

Lemma split_from_length (separator : ascii) (s piece : string) :
  length (split_from separator piece s) = S (occurrences separator s).
Proof.
  revert piece; induction s as [|c s IH]; intros piece; cbn [split_from occurrences].
  - reflexivity.
  - destruct (Ascii.eqb c separator); cbn [length]; now rewrite IH.
Qed.

Lemma split_from_pieces (separator : ascii) (s piece : string) :
  occurrences separator piece = O ->
  Forall (fun p => occurrences separator p = O) (split_from separator piece s).
Proof.
  revert piece; induction s as [|c s IH]; intros piece Hpiece; cbn [split_from].
  - now constructor.
  - destruct (Ascii.eqb c separator) eqn:E.
    + constructor; [exact Hpiece | now apply IH].
    + apply IH. rewrite occurrences_app, Hpiece. cbn. now rewrite E.
Qed.

(** X11. The configured labels are the pieces of the environment string
    between its spaces: joining them with spaces gives the string back, there
    is one label more than there are spaces, and no label contains a space. *)
Theorem ALL_OBJECT_LABELS_pieces {world : World} :
  join " " ALL_OBJECT_LABELS = process.ALL_OBJECT_LABELS process_env /\
  length ALL_OBJECT_LABELS =
    S (occurrences " " (process.ALL_OBJECT_LABELS process_env)) /\
  Forall (fun label => occurrences " " label = O) ALL_OBJECT_LABELS.
Proof.
  unfold ALL_OBJECT_LABELS, split. split; [|split].
  - now rewrite split_from_join.
  - apply split_from_length.
  - now apply split_from_pieces.
Qed.

Section OutcomeFacts.
Context {host : Host} {world : World}.

Lemma processAllFiles_rejected (bucketName : string) (r : reason) :
  getFiles (process.PROJECT process_env) bucketName = Rejected r ->
  processAllFiles bucketName =
  Async [storage_getFiles (process.PROJECT process_env) bucketName] [] (Rejected r).
Proof. intros Hlisting. unfold processAllFiles. now rewrite Hlisting. Qed.

Lemma inference_decided (gcsPath : string) :
  (exists kind, inference_fails gcsPath kind) \/
  (exists body response,
     valid_uri gcsPath /\
     request (api_url gcsPath) credentials = Replied 200 body /\
     createVisionResponse body = Returns response).
Proof.
  destruct gcsPath as [|c rest] eqn:Epath.
  { left. exists InvalidInputError. constructor. now left. }
  rewrite <- Epath.
  destruct (startsWith gcsPath "gs://") eqn:Hprefix.
  2:{ left. exists InvalidInputError. constructor. now right. }
  assert (Hvalid : valid_uri gcsPath) by (split; [subst; discriminate | exact Hprefix]).
  destruct (request (api_url gcsPath) credentials) as [err|statusCode body] eqn:Hreq.
  { left. exists NetworkError. eapply fails_network; eauto. }
  destruct (Z.eq_dec statusCode 200) as [->|Hcode].
  2:{ left. exists UpstreamError. eapply fails_upstream; eauto. }
  destruct (createVisionResponse body) as [response|e] eqn:Hparse.
  - right. exists body, response. auto.
  - left. exists ParseError. eapply fails_parse; eauto.
Qed.

Lemma recognizeObjects_success (gcsPath body : string)
  (response : VisionResponse.t) :
  valid_uri gcsPath ->
  request (api_url gcsPath) credentials = Replied 200 body ->
  createVisionResponse body = Returns response ->
  recognizeObjects gcsPath =
  Async [log_recognizeObjects gcsPath; http_request (api_url gcsPath) credentials]
    [log_api_timing (api_url gcsPath)] (Resolved response).
Proof.
  intros Hvalid Hreq Hparse. unfold recognizeObjects, catch_, then_.
  rewrite (recognizeObjectAPIAsync_valid _ Hvalid), Hreq.
  cbn [Z.eqb Pos.eqb negb settles later now]. now rewrite Hparse.
Qed.
End OutcomeFacts.

(** X12. [recognizeObjects] reports exactly one error when the inference
    fails, of whichever kind, and none when it does not fail; in that case the
    reply had status 200 and the promise resolves with what the parser
    returned for its body. The four kinds of failure exclude one another. *)
Theorem recognizeObjects_reports_failures {host : Host} {world : World}
  (gcsPath : string) :
  (forall kind,
     inference_fails gcsPath kind ->
     exists error,
       reported_errors (later (recognizeObjects gcsPath)) = [error]) /\
  ((forall kind, ~ inference_fails gcsPath kind) ->
   reported_errors (later (recognizeObjects gcsPath)) = [] /\
   exists body response,
     request (api_url gcsPath) credentials = Replied 200 body /\
     createVisionResponse body = Returns response /\
     settles (recognizeObjects gcsPath) = Resolved response) /\
  (forall kind kind',
     inference_fails gcsPath kind -> inference_fails gcsPath kind' ->
     kind = kind').
Proof.
  split; [|split].
  - intros kind Hfails.
    destruct (inference_fails_empty _ _ Hfails) as (error & _ & Hlater).
    exists error. rewrite Hlater, reported_errors_app.
    now rewrite (proj2 (requests_later_api gcsPath)).
  - intros Hnone.
    destruct (inference_decided gcsPath)
      as [[kind Hfails]|(body & response & Hvalid & Hreq & Hparse)].
    + now apply Hnone in Hfails.
    + rewrite (recognizeObjects_success _ _ _ Hvalid Hreq Hparse).
      split; [reflexivity|]. exists body, response. auto.
  - intros kind kind' H1 H2.
    destruct H1 as [[He|Hp]|err [Hne Hp] Hr|code body [Hne Hp] Hr Hc
                   |body e [Hne Hp] Hr Ht];
      destruct H2 as [[He'|Hp']|err' [Hne' Hp'] Hr'|code' body' [Hne' Hp'] Hr' Hc'
                     |body' e' [Hne' Hp'] Hr' Ht'];
      try reflexivity; try congruence.
Qed.

(** X13. When the endpoint answers 200 with a valid detection payload,
    [processOneFile] logs the timing, then the response holding the boxes of
    the payload, then one line per configured label, in order, with the
    result of the label test on those boxes; no error is reported and the
    promise resolves. *)
Theorem processOneFile_success {host : Host} {world : World}
  (bucketName fileName body : string) (p : payload) :
  request (api_url ("gs://" ++ bucketName ++ "/" ++ fileName)) credentials =
    Replied 200 body ->
  JSON_parse body = Some (payload_value p) ->
  NoDup (map fst p) ->
  later (processOneFile bucketName fileName) =
    (log_api_timing (api_url ("gs://" ++ bucketName ++ "/" ++ fileName))
     :: log_vision_response (VisionResponse.make (boxes_of p))
     :: map (fun label =>
               log_searching label (existsb (label_matches label) (boxes_of p)))
          ALL_OBJECT_LABELS)%list /\
  settles (processOneFile bucketName fileName) = Resolved tt.
Proof.
  intros Hreq Hparse Hnd.
  pose proof (createVisionResponse_payload _ _ Hparse Hnd) as Hresponse.
  pose proof (recognizeObjects_success _ _ _
                (built_uri_valid bucketName fileName) Hreq Hresponse) as Hrec.
  rewrite (processOneFile_unfold _ _ (VisionResponse.make (boxes_of p)))
    by now rewrite Hrec.
  rewrite Hrec. now split.
Qed.

(** X14. The message an upstream rejection carries determines the status
    code: two rejections for statuses other than 200 are equal only if the
    status codes are. *)
Theorem upstream_rejection_determines_status {host : Host} (world world' : World)
  (gcsURI gcsURI' : string) (statusCode statusCode' : Z) (body body' : string) :
  valid_uri gcsURI ->
  valid_uri gcsURI' ->
  request (World := world) (api_url (world := world) gcsURI)
    (credentials (world := world)) = Replied statusCode body ->
  request (World := world') (api_url (world := world') gcsURI')
    (credentials (world := world')) = Replied statusCode' body' ->
  statusCode <> 200 -> statusCode' <> 200 ->
  settles (recognizeObjectAPIAsync (world := world) gcsURI) =
  settles (recognizeObjectAPIAsync (world := world') gcsURI') ->
  statusCode = statusCode'.
Proof.
  intros Hvalid Hvalid' Hreq Hreq' Hcode Hcode'.
  rewrite (recognizeObjectAPIAsync_valid (world := world) _ Hvalid), Hreq.
  rewrite (recognizeObjectAPIAsync_valid (world := world') _ Hvalid'), Hreq'.
  replace (statusCode =? 200) with false by (symmetry; now apply Z.eqb_neq).
  replace (statusCode' =? 200) with false by (symmetry; now apply Z.eqb_neq).
  cbn [negb settles]. intros [= E].
  apply integer_text_injective. eapply append_cancel_r. exact E.
Qed.

(** X15. The program, in its first turn, prints its banners and asks for the
    listing of the configured bucket, nothing more; in later turns it issues
    at most one request; it ends with an unhandled rejection exactly when the
    listing is rejected, with the reason of the listing, and then nothing
    happens in later turns. *)
Theorem main_scans_configured_bucket {host : Host} {world : World} :
  first_turn main =
    [console_log "***Image processing is starting up***";
     console_log "Image processing started...";
     effect (storage_getFiles (process.PROJECT process_env)
               (process.CLOUD_BUCKET process_env));
     console_log "Image processing is in progress..."] /\
  (length (requests (effects (later_turns main))) <= 1)%nat /\
  (forall r,
     unhandled_rejection main = Some r <->
     getFiles (process.PROJECT process_env) (process.CLOUD_BUCKET process_env)
     = Rejected r) /\
  (unhandled_rejection main <> None -> later_turns main = []).
Proof.
  unfold main. cbn [first_turn later_turns unhandled_rejection].
  rewrite effects_map.
  destruct (getFiles (process.PROJECT process_env)
              (process.CLOUD_BUCKET process_env)) as [files|r] eqn:Hlisting.
  - rewrite (processAllFiles_listed _ _ Hlisting). cbn [now later settles].
    split; [reflexivity|]. split; [|split; [intros r; split; discriminate|]].
    + destruct files as [|file files]; [cbn; lia|].
      rewrite processOneFile_now. cbn [Datatypes.app requests].
      rewrite processOneFile_later_requests. cbn. lia.
    + congruence.
  - rewrite (processAllFiles_rejected _ _ Hlisting). cbn [now later settles].
    split; [reflexivity|]. split; [cbn; lia|].
    split; [intros r'; split; congruence | reflexivity].
Qed.

(** X16. When the label variable of the environment is the empty string, one
    label is searched all the same, the empty one, and it is reported found
    exactly when the response has a box. The lower-cased empty string is the
    empty string. *)
Theorem processOneFile_empty_label_list {host : Host} {world : World}
  (bucketName fileName : string) :
  process.ALL_OBJECT_LABELS process_env = EmptyString ->
  toLowerCase EmptyString = EmptyString ->
  exists visionResponse,
    settles (recognizeObjects ("gs://" ++ bucketName ++ "/" ++ fileName)) =
      Resolved visionResponse /\
    later (processOneFile bucketName fileName) =
      (later (recognizeObjects ("gs://" ++ bucketName ++ "/" ++ fileName))
       ++ [log_vision_response visionResponse;
           log_searching EmptyString
             (match VisionResponse.bBoxes visionResponse with
              | [] => false
              | _ :: _ => true
              end)])%list.
Proof.
  intros Hlabels Hlower.
  destruct (recognizeObjects_resolves ("gs://" ++ bucketName ++ "/" ++ fileName))
    as [visionResponse Hsettles].
  exists visionResponse. split; [exact Hsettles|].
  rewrite (processOneFile_unfold _ _ _ Hsettles). cbn [later].
  unfold ALL_OBJECT_LABELS. rewrite Hlabels. cbn [split split_from map].
  do 3 f_equal.
  destruct (VisionResponse.bBoxes visionResponse) as [|bBox rest]; [reflexivity|].
  cbn [existsb]. unfold label_matches. now rewrite Hlower, indexOf_empty.
Qed.

(** ** The further properties on concrete inputs *)

Lemma findObject_own_label_witness :
  toLocaleLowerCase (Host := Sample.host) "Car" = toLowerCase (Host := Sample.host) "Car"
  /\ In (box "Car") [box "Tractor"; box "Car"]
  /\ findObject (host := Sample.host) "Car"
       (VisionResponse.make [box "Tractor"; box "Car"]) = Returns true.
Proof.
  split; [reflexivity|]. split; [right; left; reflexivity|].
  apply (findObject_own_label (host := Sample.host)
           (VisionResponse.make [box "Tractor"; box "Car"]) (box "Car"));
    [reflexivity | right; left; reflexivity].
Defined.

Lemma findObject_shorter_target_witness :
  contains (toLowerCase (Host := Sample.host) "Race-Car")
           (toLowerCase (Host := Sample.host) "CAR")
  /\ findObject (host := Sample.host) "Race-Car"
       (VisionResponse.make [box "race-car-7"]) = Returns true
  /\ findObject (host := Sample.host) "CAR"
       (VisionResponse.make [box "race-car-7"]) = Returns true.
Proof.
  assert (Hsub : contains (toLowerCase (Host := Sample.host) "Race-Car")
                          (toLowerCase (Host := Sample.host) "CAR"))
    by (exists "race-", EmptyString; reflexivity).
  split; [exact Hsub|]. split; [reflexivity|].
  apply (findObject_shorter_target (host := Sample.host) "Race-Car" "CAR"
           (VisionResponse.make [box "race-car-7"]) Hsub).
  reflexivity.
Defined.

Lemma createVisionResponse_arrays_witness :
  (JSON_parse (Host := Sample.host) mixed_text = Some (arrays_value mixed_arrays) /\
   NoDup (map fst mixed_arrays) /\
   createVisionResponse (host := Sample.host) mixed_text =
     Returns (VisionResponse.make
                [BoundingBox.new "car" one VUndefined VUndefined VUndefined
                   VUndefined;
                 blank "car"; blank "car"; blank "dog"])) /\
  (JSON_parse (Host := Sample.host) null_record_text =
     Some (arrays_value null_record_arrays) /\
   createVisionResponse (host := Sample.host) null_record_text = Throws TypeError).
Proof.
  split.
  - split; [reflexivity|]. split; [distinct_keys|].
    apply (createVisionResponse_arrays (host := Sample.host) mixed_text
             mixed_arrays); [reflexivity | distinct_keys].
  - split; [reflexivity|].
    apply (createVisionResponse_arrays (host := Sample.host) null_record_text
             null_record_arrays); [reflexivity | distinct_keys].
Defined.

Lemma createVisionResponse_no_sequences_witness :
  JSON_parse (Host := Sample.host) scalars_text = Some (VObj scalars) /\
  NoDup (map fst scalars) /\
  createVisionResponse (host := Sample.host) scalars_text =
    Returns VisionResponse.new.
Proof.
  split; [reflexivity|]. split; [distinct_keys|].
  apply (createVisionResponse_no_sequences (host := Sample.host) scalars_text
           scalars); [reflexivity | distinct_keys |].
  repeat constructor.
Defined.

Lemma createVisionResponse_labels_are_keys_witness :
  JSON_parse (Host := Sample.host) crowd_text = Some (payload_value crowd_payload) /\
  createVisionResponse (host := Sample.host) crowd_text =
    Returns (VisionResponse.make (boxes_of crowd_payload)) /\
  In "car" (for_in_keys (payload_value crowd_payload)).
Proof.
  split; [reflexivity|]. split; [reflexivity|].
  apply (createVisionResponse_labels_are_keys (host := Sample.host) crowd_text
           (payload_value crowd_payload)
           (VisionResponse.make (boxes_of crowd_payload))
           eq_refl eq_refl
           (BoundingBox.new "car" four three two one nine_tenths)).
  right. right. left. reflexivity.
Defined.

Lemma createVisionResponse_strings_witness :
  JSON_parse (Host := Sample.host) words_text =
    Some (VObj (map (fun entry => (fst entry, VStr (snd entry))) words)) /\
  NoDup (map fst words) /\
  createVisionResponse (host := Sample.host) words_text =
    Returns (VisionResponse.make [blank "car"; blank "car"]).
Proof.
  split; [reflexivity|]. split; [distinct_keys|].
  apply (createVisionResponse_strings (host := Sample.host) words_text words);
    [reflexivity | distinct_keys].
Defined.

Lemma processAllFiles_requests_witness :
  getFiles (World := detecting) "cloud-derby" "b" =
    Resolved [Build_File "f.jpg"; Build_File "g.jpg"; Build_File "h.jpg"] /\
  requests
    (now (processAllFiles (host := Sample.host) (world := detecting) "b")
     ++ later (processAllFiles (host := Sample.host) (world := detecting) "b"))%list
  = [(file_url, {| user := "derby"; pass := "secret" |})].
Proof.
  split; [reflexivity|].
  apply (processAllFiles_requests (host := Sample.host) (world := detecting) "b"
           [Build_File "f.jpg"; Build_File "g.jpg"; Build_File "h.jpg"]).
  reflexivity.
Defined.

Lemma processOneFile_success_witness :
  request (World := detecting) file_url {| user := "derby"; pass := "secret" |} =
    Replied 200 car_text /\
  JSON_parse (Host := Sample.host) car_text = Some (payload_value car_payload) /\
  NoDup (map fst car_payload) /\
  later (processOneFile (host := Sample.host) (world := detecting) "b" "f.jpg") =
    [log_api_timing file_url;
     log_vision_response (VisionResponse.make [box "car"]);
     log_searching "car" true;
     log_searching "pedestrian" false] /\
  settles (processOneFile (host := Sample.host) (world := detecting) "b" "f.jpg") =
    Resolved tt.
Proof.
  split; [reflexivity|]. split; [reflexivity|]. split; [distinct_keys|].
  apply (processOneFile_success (host := Sample.host) (world := detecting)
           "b" "f.jpg" car_text car_payload);
    [reflexivity | reflexivity | distinct_keys].
Defined.

Lemma upstream_rejection_determines_status_witness :
  settles (recognizeObjectAPIAsync (host := Sample.host) (world := failing)
             file_uri) =
  settles (recognizeObjectAPIAsync (host := Sample.host) (world := failing_too)
             file_uri) /\
  500 = 500.
Proof.
  split; [reflexivity|].
  apply (upstream_rejection_determines_status (host := Sample.host)
           failing failing_too file_uri file_uri 500 500
           "Internal Server Error" "Bad Gateway");
    try (split; [discriminate | reflexivity]); try reflexivity; discriminate.
Defined.

Lemma processOneFile_empty_label_list_witness :
  process.ALL_OBJECT_LABELS (process_env (World := unlabelled)) = EmptyString /\
  toLowerCase (Host := Sample.host) EmptyString = EmptyString /\
  exists visionResponse,
    settles (recognizeObjects (host := Sample.host) (world := unlabelled)
               file_uri) = Resolved visionResponse /\
    later (processOneFile (host := Sample.host) (world := unlabelled) "b" "f.jpg") =
      (later (recognizeObjects (host := Sample.host) (world := unlabelled) file_uri)
       ++ [log_vision_response visionResponse;
           log_searching EmptyString
             (match VisionResponse.bBoxes visionResponse with
              | [] => false
              | _ :: _ => true
              end)])%list.
Proof.
  split; [reflexivity|]. split; [reflexivity|].
  apply (processOneFile_empty_label_list (host := Sample.host)
           (world := unlabelled) "b" "f.jpg"); reflexivity.
Defined.

(** The program on a bucket that cannot be listed, and with no labels
    configured. *)
Example main_unlisted :
  main (host := Sample.host) (world := unlisted) =
  Program
    [console_log "***Image processing is starting up***";
     console_log "Image processing started...";
     effect (storage_getFiles "cloud-derby" "b");
     console_log "Image processing is in progress..."]
    []
    (Some (Cause "ENOTFOUND")).
Proof. reflexivity. Qed.

Example processOneFile_unlabelled :
  later (processOneFile (host := Sample.host) (world := unlabelled) "b" "f.jpg") =
  [log_api_timing file_url;
   log_vision_response (VisionResponse.make [box "car"]);
   log_searching EmptyString true].
Proof. reflexivity. Qed.

Lemma processOneFile_one_request_witness :
  requests (now (processOneFile (host := Sample.host) (world := detecting)
                   "b" "f.jpg")) =
    [(file_url, {| user := "derby"; pass := "secret" |})] /\
  requests (later (processOneFile (host := Sample.host) (world := detecting)
                     "b" "f.jpg")) = [].
Proof.
  pose proof (processOneFile_one_request (host := Sample.host) (world := detecting)
                "b" "f.jpg") as (Hnow & Hlater & _).
  split; [exact Hnow | exact Hlater].
Defined.

Lemma recognizeObjects_reports_failures_witness :
  inference_fails (host := Sample.host) (world := failing) file_uri UpstreamError /\
  exists error,
    reported_errors
      (later (recognizeObjects (host := Sample.host) (world := failing) file_uri))
    = [error].
Proof.
  assert (Hfails : inference_fails (host := Sample.host) (world := failing)
                     file_uri UpstreamError).
  { apply (fails_upstream file_uri 500 "Internal Server Error").
    - split; [discriminate | reflexivity].
    - reflexivity.
    - discriminate. }
  split; [exact Hfails|].
  apply (proj1 (recognizeObjects_reports_failures (host := Sample.host)
                  (world := failing) file_uri) UpstreamError Hfails).
Defined.

Lemma main_scans_configured_bucket_witness :
  getFiles (World := unlisted) "cloud-derby" "b" = Rejected (Cause "ENOTFOUND") /\
  unhandled_rejection (main (host := Sample.host) (world := unlisted)) =
    Some (Cause "ENOTFOUND").
Proof.
  split; [reflexivity|].
  pose proof (main_scans_configured_bucket (host := Sample.host)
                (world := unlisted)) as (_ & _ & Hunhandled & _).
  apply Hunhandled. reflexivity.
Defined.
